(** * NatManager (src/nat-manager.ts): a shallow embedding and its properties

    The manager is a small stateful class whose methods talk to four
    collaborators: the transport manager, the address manager, the UPnP
    gateway client and the logger.  Its methods are embedded as programs of
    a state-and-exception monad over the manager's own fields and the
    trace of calls made to the collaborators.  The answers of the
    collaborators are given by an environment [Env], as functions of the
    trace so far.

    An [async] method is embedded as the program that runs from its call to
    its settlement: what is proved of a run is proved of a run that no other
    call of the same instance interleaves with. *)

From Stdlib Require Import ZArith List String Ascii Bool Lia.
From Stdlib Require Import DecimalString.
Import ListNotations.

Local Open Scope string_scope.
Local Open Scope list_scope.
Local Open Scope Z_scope.

(** ** JavaScript numbers

    [Math.random() * (max - min + 1) + min] is computed on IEEE 754 binary64
    numbers.  Every finite binary64 number is an integer multiple of
    [2^-1074]; a non-negative finite number [x] is represented here by the
    integer [x * 2^1074].  Each operation is the exact operation followed by
    rounding to nearest, ties to even, on 53 significant bits.  The
    embedding covers the non-negative numbers below the overflow threshold,
    which is where [highPort] works. *)
Module Number.

Definition t := Z.

(** The exponent of the smallest positive number. *)
Definition emin : Z := 1074.

(** The number of significant bits. *)
Definition prec : Z := 53.

Definition of_Z (n : Z) : t := n * 2 ^ emin.

(** [rne n s] is the integer nearest to [n / 2^s], the even one of the two
    when [n] is half way. *)
Definition rne (n s : Z) : Z :=
  let q := n / 2 ^ s in
  let r := n mod 2 ^ s in
  if 2 * r <? 2 ^ s then q
  else if 2 ^ s <? 2 * r then q + 1
  else if Z.even q then q else q + 1.

(** [round_at n u] rounds the exact value [n * 2^-(1074+u)], [u >= 0],
    to a binary64 number. *)
Definition round_at (n u : Z) : t :=
  let s := Z.max u (Z.log2 n - (prec - 1)) in
  rne n s * 2 ^ (s - u).

Definition round (n : Z) : t := round_at n 0.

Definition is_number (x : t) : Prop := 0 <= x /\ round x = x.

Definition add (x y : t) : t := round_at (x + y) 0.
Definition sub (x y : t) : t := round_at (x - y) 0.
Definition mul (x y : t) : t := round_at (x * y) emin.

(** [Math.floor], to an integer. *)
Definition floor (x : t) : Z := x / 2 ^ emin.

(** The largest number below 1, [1 - 2^-53]. *)
Definition pred_one : t := 2 ^ emin - 2 ^ (emin - prec).

End Number.

(** [highPort (min = 1024, max = 65535)], lines 18-20.  [rnd] is the value
    that [Math.random()] returned. *)
Definition highPort (rnd : Number.t) (min max : Number.t) : Z :=
  Number.floor
    (Number.add
       (Number.mul rnd (Number.add (Number.sub max min) (Number.of_Z 1)))
       min).

Definition highPort_default (rnd : Number.t) : Z :=
  highPort rnd (Number.of_Z 1024) (Number.of_Z 65535).

(** ** Values of the program *)

(** [`${n}`] for an integer [n]. *)
Definition string_of_Z (n : Z) : string := NilZero.string_of_int (Z.to_int n).

(** [String.prototype.toUpperCase], on the ASCII letters. *)
Definition toUpperCase_ascii (c : ascii) : ascii :=
  let n := nat_of_ascii c in
  if (Nat.leb 97 n && Nat.leb n 122)%bool then ascii_of_nat (n - 32) else c.

Fixpoint toUpperCase (s : string) : string :=
  match s with
  | EmptyString => EmptyString
  | String c r => String (toUpperCase_ascii c) (toUpperCase r)
  end.

(** What is thrown: a [CodeError] of [@libp2p/interfaces/errors], an [Error]
    made by the manager, or whatever a collaborator rejected with. *)
Inductive Error : Type :=
| CodeError (message code : string)
| JsError (message : string)
| Rejected (reason : string).

Inductive Outcome (A : Type) : Type :=
| Return (a : A)
| Throw (e : Error).
Arguments Return {A} a.
Arguments Throw {A} e.

(** What [addr.toOptions()] returns. *)
Module MultiaddrObject.
Record t : Type := { family : Z; host : string; port : Z; transport : string }.
End MultiaddrObject.

(** A bound address, as far as the manager looks at it: its decomposition,
    [addr.isThinWaistAddress()] and [isLoopback(addr)].  The addresses that
    the transport manager reports decompose: [toOptions] does not throw. *)
Record Multiaddr : Type := {
  toOptions : MultiaddrObject.t;
  isThinWaistAddress : bool;
  isLoopback : bool
}.

Module NodeAddress.
Record t : Type := { family : Z; address : string; port : Z }.
End NodeAddress.

(** The address that [fromNodeAddress(addr, transport)] builds, kept as what
    it is built from. *)
Record ObservedAddr : Type := fromNodeAddress {
  nodeAddress : NodeAddress.t;
  nodeTransport : string
}.

Inductive Protocol : Type := TCP | UDP.

(** The argument of [client.map]. *)
Module MapRequest.
Record t : Type := {
  publicPort : Z;
  localPort : Z;
  localAddress : option string;
  protocol : Protocol
}.
End MapRequest.

(** The argument of [upnpNat]. *)
Module UpnpOptions.
Record t : Type := {
  description : string;
  ttl : Z;
  keepAlive : bool;
  gateway : option string
}.
End UpnpOptions.

(** A gateway client is known by its identity: the [n]-th object that
    [upnpNat] made. *)
Definition NatAPI : Type := nat.

(** ** The manager *)

Record NatManagerInit : Type := {
  init_enabled : bool;
  init_externalAddress : option string;
  init_localAddress : option string;
  init_description : option string;
  init_ttl : option Z;
  init_keepAlive : option bool;
  init_gateway : option string
}.

(** Of the components, the peer id is kept as its [toString()]; the
    transport manager and the address manager are collaborators, see
    [Env]. *)
Record NatManagerComponents : Type := { peerId : string }.

Record NatManager : Type := {
  components : NatManagerComponents;
  enabled : bool;
  externalAddress : option string;
  localAddress : option string;
  description : string;
  ttl : Z;
  keepAlive : bool;
  gateway : option string;
  started : bool;
  client : option NatAPI
}.

Definition set_started (b : bool) (m : NatManager) : NatManager :=
  {| components := components m; enabled := enabled m;
     externalAddress := externalAddress m; localAddress := localAddress m;
     description := description m; ttl := ttl m; keepAlive := keepAlive m;
     gateway := gateway m; started := b; client := client m |}.

Definition set_client (c : option NatAPI) (m : NatManager) : NatManager :=
  {| components := components m; enabled := enabled m;
     externalAddress := externalAddress m; localAddress := localAddress m;
     description := description m; ttl := ttl m; keepAlive := keepAlive m;
     gateway := gateway m; started := started m; client := c |}.

(** ** Collaborators *)

(** One call made to a collaborator. *)
Inductive Event : Type :=
| GetAddrs
| UpnpNat (options : UpnpOptions.t)
| ExternalIp (c : NatAPI)
| MathRandom
| Map (c : NatAPI) (request : MapRequest.t)
| AddObservedAddr (addr : ObservedAddr)
| Close (c : NatAPI)
| Log (message : string)
| LogError (err : Error).

Definition Trace : Type := list Event.

(** The collaborators and the imported constants.  A call is answered from
    the calls made before it.  [upnpNat], [client_map] and [client_close]
    answer [None] when they succeed and [Some e] when they reject with [e].
    [pkg_name], [pkg_version] (version.js) and [ERR_INVALID_PARAMETERS]
    (errors.js) are constants of files that are not at hand. *)
Record Env : Type := {
  isBrowser : bool;
  pkg_name : string;
  pkg_version : string;
  ERR_INVALID_PARAMETERS : string;
  isPrivateIp : string -> option bool;
  getAddrs : Trace -> list Multiaddr;
  upnpNat : UpnpOptions.t -> Trace -> option Error;
  client_externalIp : NatAPI -> Trace -> Outcome string;
  client_map : NatAPI -> MapRequest.t -> Trace -> option Error;
  client_close : NatAPI -> Trace -> option Error;
  Math_random : Trace -> Number.t
}.

(** [Math.random()] returns a number that is at least 0 and below 1. *)
Definition random_ok (env : Env) : Prop :=
  forall t, Number.is_number (Math_random env t) /\ Math_random env t < Number.of_Z 1.

Definition is_UpnpNat (e : Event) : bool :=
  match e with UpnpNat _ => true | _ => false end.

Definition is_ExternalIp (e : Event) : bool :=
  match e with ExternalIp _ => true | _ => false end.

(** The clients made so far. *)
Definition created (t : Trace) : nat := List.length (filter is_UpnpNat t).

(** The addresses that the address manager has been given. *)
Definition observed (t : Trace) : list ObservedAddr :=
  flat_map (fun e => match e with AddObservedAddr a => [a] | _ => [] end) t.

(** The mapping requests that were sent. *)
Definition requests (t : Trace) : list MapRequest.t :=
  flat_map (fun e => match e with Map _ r => [r] | _ => [] end) t.

(** ** Programs *)

Record State : Type := { this : NatManager; trace : Trace }.

Definition M (A : Type) : Type := State -> Outcome A * State.

Definition ret {A} (a : A) : M A := fun s => (Return a, s).

Definition bind {A B} (m : M A) (k : A -> M B) : M B :=
  fun s =>
    match m s with
    | (Return a, s') => k a s'
    | (Throw e, s') => (Throw e, s')
    end.

Definition throw {A} (e : Error) : M A := fun s => (Throw e, s).

(** [try { m } catch (err) { h err }] *)
Definition try_catch {A} (m : M A) (h : Error -> M A) : M A :=
  fun s =>
    match m s with
    | (Return a, s') => (Return a, s')
    | (Throw e, s') => h e s'
    end.

Notation "x <- m ;; k" := (bind m (fun x => k))
  (at level 61, m at next level, right associativity).
Notation "m ;;; k" := (bind m (fun _ => k))
  (at level 61, right associativity).

Definition read : M NatManager := fun s => (Return (this s), s).

Definition assign (f : NatManager -> NatManager) : M unit :=
  fun s => (Return tt, {| this := f (this s); trace := trace s |}).

(** A call of a collaborator: the answer is read, the call is recorded. *)
Definition call {A} (e : Event) (answer : Trace -> Outcome A) : M A :=
  fun s => (answer (trace s), {| this := this s; trace := trace s ++ [e] |}).

Definition settle (r : option Error) : Outcome unit :=
  match r with None => Return tt | Some e => Throw e end.

(** [for (const x of xs) { body x }] *)
Fixpoint for_of {A} (xs : list A) (body : A -> M unit) : M unit :=
  match xs with
  | [] => ret tt
  | x :: r => body x ;;; for_of r body
  end.

Definition DEFAULT_TTL : Z := 7200.

(** An address that is thin-waist, of transport [tcp], not loopback and of
    family 4. *)
Definition eligible (addr : Multiaddr) : bool :=
  (isThinWaistAddress addr
   && String.eqb (MultiaddrObject.transport (toOptions addr)) "tcp"
   && negb (isLoopback addr)
   && (MultiaddrObject.family (toOptions addr) =? 4))%bool.

Section Manager.

Variable env : Env.

Definition log (message : string) : M unit :=
  call (Log message) (fun _ => Return tt).

Definition log_error (err : Error) : M unit :=
  call (LogError err) (fun _ => Return tt).

(** Lines 84-99. *)
Definition constructor (cs : NatManagerComponents) (init : NatManagerInit)
  : Outcome NatManager :=
  let m :=
    {| components := cs;
       started := false;
       enabled := init_enabled init;
       externalAddress := init_externalAddress init;
       localAddress := init_localAddress init;
       description :=
         match init_description init with
         | Some d => d
         | None =>
             String.append (pkg_name env)
               (String.append "@"
                  (String.append (pkg_version env)
                     (String.append " " (peerId cs))))
         end;
       ttl := match init_ttl init with Some n => n | None => DEFAULT_TTL end;
       keepAlive := match init_keepAlive init with Some b => b | None => true end;
       gateway := init_gateway init;
       client := None |} in
  if ttl m <? DEFAULT_TTL then
    Throw (CodeError
             (String.append "NatManager ttl should be at least "
                (String.append (string_of_Z DEFAULT_TTL) " seconds"))
             (ERR_INVALID_PARAMETERS env))
  else Return m.

(** Lines 101-103. *)
Definition isStarted : M bool := m <- read ;; ret (started m).

(** Lines 105-107. *)
Definition start : M unit := ret tt.

(** Lines 183-196. *)
Definition _getClient : M NatAPI :=
  m <- read ;;
  match client m with
  | Some c => ret c
  | None =>
      let options :=
        {| UpnpOptions.description := description m;
           UpnpOptions.ttl := ttl m;
           UpnpOptions.keepAlive := keepAlive m;
           UpnpOptions.gateway := gateway m |} in
      c <- call (UpnpNat options)
             (fun t => match upnpNat env options t with
                       | None => Return (created t)
                       | Some e => Throw e
                       end) ;;
      assign (set_client (Some c)) ;;;
      ret c
  end.

(** Line 153. *)
Definition publicIp_of (c : NatAPI) : M string :=
  m <- read ;;
  match externalAddress m with
  | Some a => ret a
  | None => call (ExternalIp c) (client_externalIp env c)
  end.

(** The message of line 166. *)
Definition opening (publicIp : string) (publicPort : Z) (o : MultiaddrObject.t)
    : string :=
  String.append "opening uPnP connection from "
    (String.append publicIp
       (String.append ":"
          (String.append (string_of_Z publicPort)
             (String.append " to "
                (String.append (MultiaddrObject.host o)
                   (String.append ":" (string_of_Z (MultiaddrObject.port o)))))))).

(** Lines 164-179: the port is chosen, the mapping is requested and the
    public address is given to the address manager. *)
Definition open_port (addr : Multiaddr) (c : NatAPI) (publicIp : string)
    : M unit :=
  let o := toOptions addr in
  publicPort <- call MathRandom
                  (fun t => Return (highPort_default (Math_random env t))) ;;
  log (opening publicIp publicPort o) ;;;
  m <- read ;;
  let request :=
    {| MapRequest.publicPort := publicPort;
       MapRequest.localPort := MultiaddrObject.port o;
       MapRequest.localAddress := localAddress m;
       MapRequest.protocol :=
         if String.eqb (toUpperCase (MultiaddrObject.transport o)) "TCP"
         then TCP else UDP |} in
  call (Map c request) (fun t => settle (client_map env c request t)) ;;;
  call (AddObservedAddr
          (fromNodeAddress
             {| NodeAddress.family := 4;
                NodeAddress.address := publicIp;
                NodeAddress.port := publicPort |}
             (MultiaddrObject.transport o)))
       (fun _ => Return tt).

(** The messages of lines 157 and 161. *)
Definition is_private_message (publicIp : string) : string :=
  String.append publicIp
    " is private - please set config.nat.externalIp to an externally routable IP or ensure you are not behind a double NAT".

Definition not_an_ip_message (publicIp : string) : string :=
  String.append publicIp " is not an IP address".

(** Lines 152-179: the loop body after the tests of lines 135-150. *)
Definition map_addr (addr : Multiaddr) : M unit :=
  c <- _getClient ;;
  publicIp <- publicIp_of c ;;
  let isPrivate := isPrivateIp env publicIp in
  match isPrivate with
  | Some true => throw (JsError (is_private_message publicIp))
  | None => throw (JsError (not_an_ip_message publicIp))
  | Some false => open_port addr c publicIp
  end.

(** Lines 131-180: the loop body.  [ret tt] is [continue]. *)
Definition _start_body (addr : Multiaddr) : M unit :=
  let o := toOptions addr in
  if (negb (isThinWaistAddress addr)
      || negb (String.eqb (MultiaddrObject.transport o) "tcp"))%bool
  then ret tt
  else if isLoopback addr then ret tt
  else if negb (MultiaddrObject.family o =? 4) then ret tt
  else map_addr addr.

(** Lines 128-181. *)
Definition _start : M unit :=
  addrs <- call GetAddrs (fun t => Return (getAddrs env t)) ;;
  for_of addrs _start_body.

(** Lines 114-126. *)
Definition afterStart : M unit :=
  m <- read ;;
  if (isBrowser env || negb (enabled m) || started m)%bool then ret tt
  else
    assign (set_started true) ;;;
    try_catch _start log_error.

(** Lines 201-212. *)
Definition stop : M unit :=
  m <- read ;;
  if isBrowser env then ret tt
  else
    match client m with
    | None => ret tt
    | Some c =>
        try_catch
          (call (Close c) (fun t => settle (client_close env c t)) ;;;
           assign (set_client None))
          log_error
    end.

End Manager.

(** ** The life of an instance *)

(** The calls that the host makes on an instance. *)
Inductive Call : Type := CallIsStarted | CallStart | CallAfterStart | CallStop.

Definition perform (env : Env) (c : Call) : M unit :=
  match c with
  | CallIsStarted => isStarted ;;; ret tt
  | CallStart => start
  | CallAfterStart => afterStart env
  | CallStop => stop env
  end.

Definition lifecycle (env : Env) (cs : list Call) : M unit :=
  for_of cs (perform env).

(** The state that [new NatManager(components, init)] leaves, when the
    calls made so far are [t]. *)
Definition fresh (m : NatManager) (t : Trace) : State :=
  {| this := m; trace := t |}.

(** ** Reading a run *)

(** How a program started in [s] ends, and the state it leaves. *)
Definition outcome {A} (m : M A) (s : State) : Outcome A := fst (m s).

Definition after {A} (m : M A) (s : State) : State := snd (m s).

(** The calls that the program made: the trace it leaves, without the calls
    that were made before. *)
Definition appended {A} (m : M A) (s : State) : Trace :=
  skipn (List.length (trace s)) (trace (after m s)).

(** The state of an instance that was constructed and then only used through
    its interface. *)
Definition reachable (env : Env) (s : State) : Prop :=
  exists cs init m t calls,
    constructor env cs init = Return m /\ s = after (lifecycle env calls) (fresh m t).

(** The gateway client that a call is made on, if it is made on one. *)
Definition client_of (e : Event) : option NatAPI :=
  match e with
  | ExternalIp c | Map c _ | Close c => Some c
  | _ => None
  end.

(** Every call of a gateway client in [d] is made on [c]. *)
Definition only_client (c : NatAPI) (d : Trace) : Prop :=
  Forall (fun e => forall c', client_of e = Some c' -> c' = c) d.

(** The fields that are [readonly]: all but [started] and [client]. *)
Definition config (m : NatManager) : NatManager :=
  set_started false (set_client None m).

(** The options that [_getClient] passes to [upnpNat]. *)
Definition options_of (m : NatManager) : UpnpOptions.t :=
  {| UpnpOptions.description := description m;
     UpnpOptions.ttl := ttl m;
     UpnpOptions.keepAlive := keepAlive m;
     UpnpOptions.gateway := gateway m |}.

(** What a call made by an instance of configuration [m] can be. *)
Definition run_event (env : Env) (m : NatManager) (e : Event) : Prop :=
  match e with
  | UpnpNat o => o = options_of m
  | ExternalIp _ => externalAddress m = None
  | Map _ r =>
      MapRequest.protocol r = TCP
      /\ MapRequest.localAddress r = localAddress m
      /\ exists t, MapRequest.publicPort r = highPort_default (Math_random env t)
  | AddObservedAddr a =>
      NodeAddress.family (nodeAddress a) = 4
      /\ nodeTransport a = "tcp"
      /\ (forall ip, externalAddress m = Some ip -> NodeAddress.address (nodeAddress a) = ip)
      /\ exists t, NodeAddress.port (nodeAddress a) = highPort_default (Math_random env t)
  | GetAddrs | MathRandom | Close _ | Log _ | LogError _ => True
  end.

(** [s'] comes from [s] by such calls, with the configuration unchanged. *)
Definition evolves (env : Env) (s s' : State) : Prop :=
  config (this s') = config (this s)
  /\ exists d, trace s' = trace s ++ d /\ Forall (run_event env (config (this s))) d.

(** What a run does to the client reference, from [s] to [s'] with outcome
    [o]: a client that is held stays, and no other is made; when none is
    held, at most one call of [upnpNat] is made, and the client it makes is
    the one held from then on.  The calls of the run are on that client. *)
Definition acquires (s : State) (o : Outcome unit) (s' : State) : Prop :=
  exists d,
    trace s' = trace s ++ d
    /\ started (this s') = started (this s)
    /\ match client (this s) with
       | Some c => client (this s') = Some c /\ created d = 0%nat /\ only_client c d
       | None =>
           only_client (created (trace s)) d
           /\ ((created d = 0%nat /\ client (this s') = None)
               \/ (created d = 1%nat /\ client (this s') = Some (created (trace s)))
               \/ (created d = 1%nat /\ client (this s') = None /\ exists e, o = Throw e))
       end.

(** What the calls of the host do, from [s] to [s']: [started] is never
    reset, [upnpNat] is called at most once and only by the call that sets
    [started], and nothing happens in a browser. *)
Definition lives (env : Env) (s s' : State) : Prop :=
  exists d,
    trace s' = trace s ++ d
    /\ (started (this s) = true -> started (this s') = true /\ created d = 0%nat)
    /\ (started (this s) = false ->
        (created d <= 1)%nat /\ (started (this s') = false -> created d = 0%nat))
    /\ (isBrowser env = true -> s' = s).

(** ** Reading the calls of an instance *)

(** The options that [upnpNat] was called with. *)
Definition upnpNat_calls (t : Trace) : list UpnpOptions.t :=
  flat_map (fun e => match e with UpnpNat o => [o] | _ => [] end) t.

(** Every address registered by the calls [d], made after the calls [t],
    comes right after a mapping request of its port that the gateway
    granted. *)
Definition granted_first (env : Env) (t d : Trace) : Prop :=
  forall a,
    In (AddObservedAddr a) d ->
    exists d0 c r d2,
      d = d0 ++ Map c r :: AddObservedAddr a :: d2
      /\ client_map env c r (t ++ d0) = None
      /\ MapRequest.publicPort r = NodeAddress.port (nodeAddress a).

(** A call that releases the client or logs: [close] or [log.error]. *)
Definition is_release (e : Event) : bool :=
  match e with Close _ | LogError _ => true | _ => false end.

(** The options that [init] asks for: lines 91-94. *)
Definition options_from (env : Env) (cs : NatManagerComponents)
    (init : NatManagerInit) : UpnpOptions.t :=
  {| UpnpOptions.description :=
       match init_description init with
       | Some d => d
       | None =>
           String.append (pkg_name env)
             (String.append "@"
                (String.append (pkg_version env)
                   (String.append " " (peerId cs))))
       end;
     UpnpOptions.ttl := match init_ttl init with Some n => n | None => 7200 end;
     UpnpOptions.keepAlive :=
       match init_keepAlive init with Some b => b | None => true end;
     UpnpOptions.gateway := init_gateway init |}.

Definition is_afterStart (c : Call) : bool :=
  match c with CallAfterStart => true | _ => false end.

(** An address of family 4 and transport tcp whose address is public. *)
Definition public_tcp4 (env : Env) (a : ObservedAddr) : Prop :=
  NodeAddress.family (nodeAddress a) = 4
  /\ nodeTransport a = "tcp"
  /\ isPrivateIp env (NodeAddress.address (nodeAddress a)) = Some false.

(** ** Sample data *)

Definition addr_lan : Multiaddr :=
  {| toOptions := {| MultiaddrObject.family := 4;
                     MultiaddrObject.host := "192.168.1.10";
                     MultiaddrObject.port := 4001;
                     MultiaddrObject.transport := "tcp" |};
     isThinWaistAddress := true; isLoopback := false |}.

Definition addr_lan2 : Multiaddr :=
  {| toOptions := {| MultiaddrObject.family := 4;
                     MultiaddrObject.host := "192.168.1.10";
                     MultiaddrObject.port := 4002;
                     MultiaddrObject.transport := "tcp" |};
     isThinWaistAddress := true; isLoopback := false |}.

Definition addr_loopback : Multiaddr :=
  {| toOptions := {| MultiaddrObject.family := 4;
                     MultiaddrObject.host := "127.0.0.1";
                     MultiaddrObject.port := 4001;
                     MultiaddrObject.transport := "tcp" |};
     isThinWaistAddress := true; isLoopback := true |}.

Definition addr_ip6 : Multiaddr :=
  {| toOptions := {| MultiaddrObject.family := 6;
                     MultiaddrObject.host := "2001:db8::10";
                     MultiaddrObject.port := 4001;
                     MultiaddrObject.transport := "tcp" |};
     isThinWaistAddress := true; isLoopback := false |}.

Definition addr_udp : Multiaddr :=
  {| toOptions := {| MultiaddrObject.family := 4;
                     MultiaddrObject.host := "192.168.1.10";
                     MultiaddrObject.port := 4001;
                     MultiaddrObject.transport := "udp" |};
     isThinWaistAddress := true; isLoopback := false |}.

Definition addr_ws : Multiaddr :=
  {| toOptions := {| MultiaddrObject.family := 4;
                     MultiaddrObject.host := "192.168.1.10";
                     MultiaddrObject.port := 4003;
                     MultiaddrObject.transport := "tcp" |};
     isThinWaistAddress := false; isLoopback := false |}.

Definition sample_isPrivateIp (ip : string) : option bool :=
  if String.eqb ip "203.0.113.7" then Some false
  else if String.eqb ip "10.0.0.5" then Some true
  else if String.eqb ip "192.168.1.10" then Some true
  else None.

(** A gateway whose public address is [ip], in a browser or not, whose
    [close] fails or not, behind a host bound to [addrs]. *)
Definition sample_env (browser closeFails : bool) (ip : string)
    (addrs : list Multiaddr) : Env :=
  {| isBrowser := browser;
     pkg_name := "libp2p";
     pkg_version := "0.42.2";
     ERR_INVALID_PARAMETERS := "ERR_INVALID_PARAMETERS";
     isPrivateIp := sample_isPrivateIp;
     getAddrs := fun _ => addrs;
     upnpNat := fun _ _ => None;
     client_externalIp := fun _ _ => Return ip;
     client_map := fun _ _ _ => None;
     client_close := fun _ _ => if closeFails then Some (Rejected "close failed") else None;
     Math_random := fun _ => 2 ^ 1073 |}.

Definition sample_components : NatManagerComponents := {| peerId := "QmPeer" |}.

Definition sample_init (on : bool) (external : option string) (seconds : option Z)
  : NatManagerInit :=
  {| init_enabled := on;
     init_externalAddress := external;
     init_localAddress := None;
     init_description := None;
     init_ttl := seconds;
     init_keepAlive := None;
     init_gateway := None |}.

(** The instance that [sample_init on external None] makes. *)
Definition sample_manager (on : bool) (external : option string) : NatManager :=
  {| components := sample_components;
     enabled := on;
     externalAddress := external;
     localAddress := None;
     description := "libp2p@0.42.2 QmPeer";
     ttl := 7200;
     keepAlive := true;
     gateway := None;
     started := false;
     client := None |}.

Definition sample_addrs : list Multiaddr :=
  [addr_loopback; addr_ip6; addr_lan; addr_udp; addr_ws; addr_lan2].

(** The state of a sample instance that was just constructed. *)
Definition sample_state : State := fresh (sample_manager true None) [].

(** A gateway at the public address 203.0.113.7. *)
Definition sample_gateway : Env := sample_env false false "203.0.113.7" sample_addrs.

(** The same, seen from a browser. *)
Definition browser_env : Env := sample_env true false "203.0.113.7" sample_addrs.

(** The same, with a client whose [close] fails. *)
Definition failing_close_env : Env := sample_env false true "203.0.113.7" sample_addrs.

(** A gateway that answers 203.0.113.7 until a mapping was requested, and
    the private 10.0.0.5 from then on. *)
Definition double_nat_env : Env :=
  {| isBrowser := false;
     pkg_name := "libp2p";
     pkg_version := "0.42.2";
     ERR_INVALID_PARAMETERS := "ERR_INVALID_PARAMETERS";
     isPrivateIp := sample_isPrivateIp;
     getAddrs := fun _ => [addr_loopback; addr_lan; addr_lan2; addr_udp];
     upnpNat := fun _ _ => None;
     client_externalIp :=
       fun _ t => match requests t with
                  | [] => Return "203.0.113.7"
                  | _ => Return "10.0.0.5"
                  end;
     client_map := fun _ _ _ => None;
     client_close := fun _ _ => None;
     Math_random := fun _ => 2 ^ 1073 |}.

(** The state of [double_nat_env] after the first two bound addresses. *)
Definition double_nat_state : State :=
  after (for_of [addr_loopback; addr_lan] (_start_body double_nat_env))
    {| this := sample_manager true None; trace := [GetAddrs] |}.

(** The state of [failing_close_env] after [afterStart]. *)
Definition held_state : State := after (afterStart failing_close_env) sample_state.

(** The state of the sample instance after [afterStart]. *)
Definition started_state : State := after (afterStart sample_gateway) sample_state.

(** The state of [double_nat_env] after [afterStart] has set [started] and
    the loop has gone through the first two bound addresses. *)
Definition double_nat_started : State :=
  after (for_of [addr_loopback; addr_lan] (_start_body double_nat_env))
    {| this := set_started true (sample_manager true None); trace := [GetAddrs] |}.

(** ** Tactics *)

(** Case analysis on the innermost [match] of the goal. *)
Ltac break_match :=
  match goal with
  | |- context [match ?x with _ => _ end] =>
      lazymatch x with
      | context [match _ with _ => _ end] => fail
      | _ => destruct x eqn:?
      end
  end.

Ltac unfold_programs :=
  unfold outcome, after, map_addr, open_port, publicIp_of, _getClient, log,
    log_error,
    bind, ret, throw, read, assign, call, try_catch, settle.

Ltac simpl_state :=
  cbn [fst snd this trace set_client set_started
       client externalAddress localAddress started enabled].

Ltac exec := unfold_programs; simpl_state; repeat (break_match; simpl_state).

Ltac finish_evolves :=
  split; [reflexivity|];
  repeat rewrite <- app_assoc; cbn [app];
  first [ eexists; split; [reflexivity|]
        | exists []; split; [now rewrite app_nil_r|] ];
  repeat (apply Forall_cons || apply Forall_nil);
  cbn; auto.

Ltac finish_only_client :=
  unfold only_client;
  repeat (apply Forall_cons || apply Forall_nil);
  cbn [client_of]; intros; congruence.

Ltac finish_acquires :=
  repeat rewrite <- app_assoc; cbn [app];
  first [ eexists; split; [reflexivity|]
        | exists []; split; [now rewrite app_nil_r|] ];
  (split; [reflexivity|]);
  first
    [ split; [eassumption | split; [reflexivity | finish_only_client]]
    | split; [finish_only_client|];
      first [ left; split; [reflexivity | eassumption]
            | right; left; split; reflexivity
            | right; right;
              split; [reflexivity | split; [eassumption | eexists; reflexivity]] ] ].

(** * Properties

    ** Rounding *)

Section Rounding.

Import Number.

Lemma rne_step (p a b : Z) (e : bool) :
  0 < p -> 0 <= a <= b -> b < p ->
  (if 2 * a <? p then 0 else if p <? 2 * a then 1 else if e then 0 else 1)
  <= (if 2 * b <? p then 0 else if p <? 2 * b then 1 else if e then 0 else 1).
Proof.
  intros Hp Hab Hb.
  destruct (Z.ltb_spec (2 * a) p), (Z.ltb_spec (2 * b) p),
    (Z.ltb_spec p (2 * a)), (Z.ltb_spec p (2 * b)), e; lia.
Qed.

Lemma rne_bounds (n s : Z) :
  0 <= s -> n / 2 ^ s <= rne n s <= n / 2 ^ s + 1.
Proof.
  intros Hs. unfold rne.
  destruct (2 * (n mod 2 ^ s) <? 2 ^ s); [lia|].
  destruct (2 ^ s <? 2 * (n mod 2 ^ s)); [lia|].
  destruct (Z.even (n / 2 ^ s)); lia.
Qed.

Lemma rne_exact (a s : Z) : 0 <= s -> rne (a * 2 ^ s) s = a.
Proof.
  intros Hs. unfold rne.
  assert (Hp : 0 < 2 ^ s) by (apply Z.pow_pos_nonneg; lia).
  rewrite Z.div_mul by lia. rewrite Z.mod_mul by lia.
  destruct (Z.ltb_spec (2 * 0) (2 ^ s)); lia.
Qed.

Lemma rne_mono (n m s : Z) : 0 <= s -> n <= m -> rne n s <= rne m s.
Proof.
  intros Hs Hnm.
  assert (Hp : 0 < 2 ^ s) by (apply Z.pow_pos_nonneg; lia).
  assert (Hq : n / 2 ^ s <= m / 2 ^ s) by (apply Z.div_le_mono; lia).
  destruct (Z.eq_dec (n / 2 ^ s) (m / 2 ^ s)) as [E|E].
  - pose proof (Z.div_mod n (2 ^ s) ltac:(lia)) as Dn.
    pose proof (Z.div_mod m (2 ^ s) ltac:(lia)) as Dm.
    pose proof (Z.mod_pos_bound n (2 ^ s) Hp) as Bn.
    pose proof (Z.mod_pos_bound m (2 ^ s) Hp) as Bm.
    assert (Hr : n mod 2 ^ s <= m mod 2 ^ s) by (rewrite E in Dn; lia).
    pose proof (rne_step (2 ^ s) (n mod 2 ^ s) (m mod 2 ^ s)
                  (Z.even (m / 2 ^ s)) Hp ltac:(lia) ltac:(lia)) as St.
    unfold rne. rewrite E.
    destruct (2 * (n mod 2 ^ s) <? 2 ^ s), (2 * (m mod 2 ^ s) <? 2 ^ s),
      (2 ^ s <? 2 * (n mod 2 ^ s)), (2 ^ s <? 2 * (m mod 2 ^ s)),
      (Z.even (m / 2 ^ s)); lia.
  - pose proof (rne_bounds n s Hs). pose proof (rne_bounds m s Hs). lia.
Qed.

Lemma rne_le (n a s : Z) : 0 <= s -> n <= a * 2 ^ s -> rne n s <= a.
Proof.
  intros Hs H. rewrite <- (rne_exact a s Hs). now apply rne_mono.
Qed.

Lemma rne_ge (n a s : Z) : 0 <= s -> a * 2 ^ s <= n -> a <= rne n s.
Proof.
  intros Hs H. rewrite <- (rne_exact a s Hs) at 1. now apply rne_mono.
Qed.

Lemma round_at_mono (n m u : Z) :
  0 <= u -> 0 <= n <= m -> round_at n u <= round_at m u.
Proof.
  intros Hu [Hn Hnm]. unfold round_at, prec.
  pose proof (Z.log2_le_mono n m Hnm) as Hl.
  set (sn := Z.max u (Z.log2 n - (53 - 1))).
  set (sm := Z.max u (Z.log2 m - (53 - 1))).
  assert (Hs : sn <= sm) by (subst sn sm; lia).
  destruct (Z.eq_dec sn sm) as [E|E].
  - rewrite E. apply Z.mul_le_mono_nonneg_r.
    + apply Z.pow_nonneg; lia.
    + apply rne_mono; subst sm; lia.
  - set (k := Z.log2 m) in *.
    assert (Hk : sm = k - 52 /\ Z.log2 n < k /\ u <= sn /\ sn < k - 52)
      by (subst sn sm; lia).
    destruct Hk as (Hsm & Hlt & Hun & Hsn).
    assert (Hm : 0 < m).
    { destruct (Z.le_gt_cases m 0) as [Hm|Hm]; [|exact Hm].
      subst k. rewrite (Z.log2_nonpos m Hm) in Hlt.
      pose proof (Z.log2_nonneg n). lia. }
    assert (Hmk : 2 ^ k <= m) by (subst k; apply Z.log2_spec; exact Hm).
    assert (Hnk : n <= 2 ^ k).
    { destruct (Z.eq_dec n 0) as [->|Hn0].
      - apply Z.pow_nonneg; lia.
      - pose proof (Z.log2_spec n ltac:(lia)) as [_ Hb].
        assert (2 ^ Z.succ (Z.log2 n) <= 2 ^ k)
          by (apply Z.pow_le_mono_r; lia).
        lia. }
    assert (Hsplit : forall s, u <= s <= k ->
              2 ^ (k - s) * 2 ^ s = 2 ^ k /\ 2 ^ (k - s) * 2 ^ (s - u) = 2 ^ (k - u)).
    { intros s Hsk. rewrite <- !Z.pow_add_r by lia.
      split; f_equal; lia. }
    apply Z.le_trans with (2 ^ (k - u)).
    + destruct (Hsplit sn ltac:(lia)) as [E1 E2]. rewrite <- E2.
      apply Z.mul_le_mono_nonneg_r; [apply Z.pow_nonneg; lia|].
      apply rne_le; lia.
    + destruct (Hsplit sm ltac:(lia)) as [E1 E2]. rewrite <- E2.
      apply Z.mul_le_mono_nonneg_r; [apply Z.pow_nonneg; lia|].
      apply rne_ge; lia.
Qed.

(** A number below 1 is at most [1 - 2^-53]. *)
Lemma below_one (r : t) : is_number r -> r < of_Z 1 -> r <= pred_one.
Proof.
  intros [H0 Hr] H1. unfold of_Z, pred_one, emin, prec in *.
  replace (1074 - 53) with 1021 by reflexivity.
  assert (P : 2 ^ 1074 = 2 ^ 53 * 2 ^ 1021)
    by (rewrite <- Z.pow_add_r by lia; reflexivity).
  assert (P' : 2 ^ 1073 = 2 ^ 52 * 2 ^ 1021)
    by (rewrite <- Z.pow_add_r by lia; reflexivity).
  assert (Q : 2 ^ 53 = 2 * 2 ^ 52) by reflexivity.
  assert (Hp : 0 < 2 ^ 1021) by (apply Z.pow_pos_nonneg; lia).
  assert (Hp52 : 0 < 2 ^ 52) by (apply Z.pow_pos_nonneg; lia).
  destruct (Z.lt_ge_cases r (2 ^ 1073)) as [Hlow|Hhigh].
  - rewrite P, Q. rewrite P' in Hlow.
    generalize dependent (2 ^ 1021). generalize dependent (2 ^ 52). intros. nia.
  - assert (L : Z.log2 r = 1073).
    { apply Z.log2_unique; [lia|]. replace (Z.succ 1073) with 1074 by reflexivity. lia. }
    unfold round, round_at, prec in Hr. rewrite L in Hr.
    replace (Z.max 0 (1073 - (53 - 1))) with 1021 in Hr by reflexivity.
    replace (1021 - 0) with 1021 in Hr by reflexivity.
    rewrite <- Hr in H1 |- *. rewrite Z.mul_1_l, P in H1. rewrite P.
    assert (rne r 1021 < 2 ^ 53).
    { apply Z.mul_lt_mono_pos_r with (2 ^ 1021); assumption. }
    generalize dependent (2 ^ 1021). generalize dependent (2 ^ 53). intros. nia.
Qed.

Lemma round_at_zero (u : Z) : 0 <= u -> round_at 0 u = 0.
Proof.
  intros Hu. unfold round_at, prec. rewrite Z.log2_nonpos by lia.
  replace (Z.max u (0 - (53 - 1))) with u by lia.
  replace 0 with (0 * 2 ^ u) at 1 by lia.
  rewrite rne_exact by lia. lia.
Qed.

Lemma round_at_nonneg (n u : Z) : 0 <= u -> 0 <= n -> 0 <= round_at n u.
Proof.
  intros Hu Hn. rewrite <- (round_at_zero u Hu).
  apply round_at_mono; lia.
Qed.

End Rounding.

(** ** The port chooser *)

Lemma highPort_mono (r r' : Number.t) :
  0 <= r <= r' -> highPort_default r <= highPort_default r'.
Proof.
  intros [H0 Hr]. unfold highPort_default, highPort.
  set (c := Number.add (Number.sub (Number.of_Z 65535) (Number.of_Z 1024))
              (Number.of_Z 1)).
  assert (Hc : 0 <= c) by (apply Z.leb_le; vm_compute; reflexivity).
  assert (Hmin : 0 <= Number.of_Z 1024) by (apply Z.leb_le; vm_compute; reflexivity).
  assert (He : 0 <= Number.emin) by (unfold Number.emin; lia).
  unfold Number.floor. apply Z.div_le_mono.
  - apply Z.pow_pos_nonneg; lia.
  - unfold Number.add. apply round_at_mono; [lia|].
    assert (Hm : Number.mul r c <= Number.mul r' c).
    { unfold Number.mul. apply round_at_mono; [exact He|].
      split; [apply Z.mul_nonneg_nonneg; lia|].
      apply Z.mul_le_mono_nonneg_r; lia. }
    assert (0 <= Number.mul r c).
    { unfold Number.mul. apply round_at_nonneg; [exact He|].
      apply Z.mul_nonneg_nonneg; lia. }
    lia.
Qed.

Lemma highPort_range (r : Number.t) :
  Number.is_number r -> r < Number.of_Z 1 ->
  1024 <= highPort_default r <= 65535.
Proof.
  intros Hn H1. pose proof (below_one r Hn H1) as Hp.
  destruct Hn as [H0 _].
  assert (E0 : highPort_default 0 = 1024) by (vm_compute; reflexivity).
  assert (E1 : highPort_default Number.pred_one = 65535) by (vm_compute; reflexivity).
  rewrite <- E0 at 1. rewrite <- E1.
  split; apply highPort_mono; lia.
Qed.

(** ** Running programs *)

Lemma appended_eq {A} (m : M A) (s : State) (d : Trace) :
  trace (after m s) = trace s ++ d -> appended m s = d.
Proof.
  intros H. unfold appended. rewrite H.
  rewrite skipn_app, skipn_all, Nat.sub_diag. reflexivity.
Qed.

Lemma for_of_cons {A} (x : A) (xs : list A) (body : A -> M unit) (s : State) :
  for_of (x :: xs) body s =
  match body x s with
  | (Return _, s1) => for_of xs body s1
  | (Throw e, s1) => (Throw e, s1)
  end.
Proof. reflexivity. Qed.

Lemma for_of_app {A} (xs ys : list A) (body : A -> M unit) (s : State) :
  for_of (xs ++ ys) body s =
  match for_of xs body s with
  | (Return _, s1) => for_of ys body s1
  | (Throw e, s1) => (Throw e, s1)
  end.
Proof.
  revert s. induction xs as [|x xs IH]; intros s.
  - reflexivity.
  - cbn [app]. rewrite !for_of_cons.
    destruct (body x s) as [[[]|e] s1]; [apply IH | reflexivity].
Qed.

(** A relation between the state before, the outcome and the state after
    that every iteration establishes, that holds of doing nothing and that
    composes, holds of the loop. *)
Lemma for_of_rule {A} (body : A -> M unit)
    (R : State -> Outcome unit -> State -> Prop) :
  (forall s, R s (Return tt) s) ->
  (forall s1 s2 o s3, R s1 (Return tt) s2 -> R s2 o s3 -> R s1 o s3) ->
  (forall x s, R s (outcome (body x) s) (after (body x) s)) ->
  forall xs s, R s (outcome (for_of xs body) s) (after (for_of xs body) s).
Proof.
  intros Hrefl Htrans Hbody xs.
  induction xs as [|x xs IH]; intros s.
  - apply Hrefl.
  - unfold outcome, after. rewrite for_of_cons.
    specialize (Hbody x s). unfold outcome, after in Hbody.
    destruct (body x s) as [[[]|e] s1]; cbn [fst snd] in Hbody.
    + eapply Htrans; [exact Hbody | apply IH].
    + exact Hbody.
Qed.

(** ** The tests of the loop *)

Lemma eligible_spec (addr : Multiaddr) :
  eligible addr = true <->
  isThinWaistAddress addr = true
  /\ MultiaddrObject.transport (toOptions addr) = "tcp"
  /\ isLoopback addr = false
  /\ MultiaddrObject.family (toOptions addr) = 4.
Proof.
  unfold eligible. rewrite !andb_true_iff, negb_true_iff, String.eqb_eq, Z.eqb_eq.
  tauto.
Qed.

Lemma body_skips (env : Env) (addr : Multiaddr) :
  eligible addr = false -> _start_body env addr = ret tt.
Proof.
  unfold eligible, _start_body.
  destruct (isThinWaistAddress addr), (isLoopback addr),
    (String.eqb (MultiaddrObject.transport (toOptions addr)) "tcp"),
    (MultiaddrObject.family (toOptions addr) =? 4);
    cbn; congruence.
Qed.

Lemma body_maps (env : Env) (addr : Multiaddr) :
  eligible addr = true -> _start_body env addr = map_addr env addr.
Proof.
  unfold eligible, _start_body.
  destruct (isThinWaistAddress addr), (isLoopback addr),
    (String.eqb (MultiaddrObject.transport (toOptions addr)) "tcp"),
    (MultiaddrObject.family (toOptions addr) =? 4);
    cbn; congruence.
Qed.

Lemma for_of_eligible (env : Env) (addrs : list Multiaddr) (s : State) :
  for_of addrs (_start_body env) s
  = for_of (filter eligible addrs) (map_addr env) s.
Proof.
  revert s. induction addrs as [|a addrs IH]; intros s.
  - reflexivity.
  - cbn [filter]. destruct (eligible a) eqn:E.
    + rewrite !for_of_cons, (body_maps env a E).
      destruct (map_addr env a s) as [[[]|e] s1]; [apply IH | reflexivity].
    + rewrite for_of_cons, (body_skips env a E). apply IH.
Qed.

(** ** The calls of a run *)

Lemma evolves_refl (env : Env) (s : State) : evolves env s s.
Proof.
  split; [reflexivity|]. exists []. now rewrite app_nil_r.
Qed.

Lemma evolves_trans (env : Env) (s1 s2 s3 : State) :
  evolves env s1 s2 -> evolves env s2 s3 -> evolves env s1 s3.
Proof.
  intros [C1 (d1 & T1 & F1)] [C2 (d2 & T2 & F2)].
  split; [congruence|]. exists (d1 ++ d2). split.
  - rewrite T2, T1, app_assoc. reflexivity.
  - apply Forall_app. split; [exact F1|]. rewrite <- C1. exact F2.
Qed.

Lemma map_addr_evolves (env : Env) (addr : Multiaddr) (s : State) :
  MultiaddrObject.transport (toOptions addr) = "tcp" ->
  evolves env s (after (map_addr env addr) s).
Proof.
  intros Htcp. unfold map_addr, open_port. rewrite Htcp.
  change (String.eqb (toUpperCase "tcp") "TCP") with true.
  exec; finish_evolves.
  all: try (repeat split; eauto; congruence).
Qed.

Lemma body_evolves (env : Env) (addr : Multiaddr) (s : State) :
  evolves env s (after (_start_body env addr) s).
Proof.
  destruct (eligible addr) eqn:E.
  - rewrite (body_maps env addr E). apply map_addr_evolves.
    now apply eligible_spec in E.
  - rewrite (body_skips env addr E). apply evolves_refl.
Qed.

Lemma loop_evolves (env : Env) (addrs : list Multiaddr) (s : State) :
  evolves env s (after (for_of addrs (_start_body env)) s).
Proof.
  apply (for_of_rule (_start_body env) (fun s _ s' => evolves env s s')).
  - apply evolves_refl.
  - intros s1 s2 _ s3. apply evolves_trans.
  - intros x s0. apply body_evolves.
Qed.

Lemma start_evolves (env : Env) (s : State) :
  evolves env s (after (_start env) s).
Proof.
  unfold _start, after, bind, call.
  apply evolves_trans with {| this := this s; trace := trace s ++ [GetAddrs] |}.
  - split; [reflexivity|]. exists [GetAddrs]. split; [reflexivity|].
    repeat constructor.
  - apply loop_evolves.
Qed.

Lemma afterStart_evolves (env : Env) (s : State) :
  evolves env s (after (afterStart env) s).
Proof.
  unfold afterStart, after, bind, read, assign, try_catch.
  destruct (isBrowser env || negb (enabled (this s)) || started (this s))%bool;
    [apply evolves_refl|].
  cbn [fst snd this trace].
  set (s1 := {| this := set_started true (this s); trace := trace s |}).
  apply evolves_trans with s1.
  { split; [reflexivity|]. exists []. split; [now rewrite app_nil_r | constructor]. }
  pose proof (start_evolves env s1) as H. unfold after in H.
  destruct (_start env s1) as [[[]|e] s2]; cbn [snd] in H |- *; [exact H|].
  apply evolves_trans with s2; [exact H|].
  unfold log_error, call. finish_evolves.
Qed.

Lemma stop_evolves (env : Env) (s : State) :
  evolves env s (after (stop env) s).
Proof.
  unfold stop. exec; try apply evolves_refl; finish_evolves.
Qed.

Lemma perform_evolves (env : Env) (c : Call) (s : State) :
  evolves env s (after (perform env c) s).
Proof.
  destruct c; cbn [perform].
  - apply evolves_refl.
  - apply evolves_refl.
  - apply afterStart_evolves.
  - apply stop_evolves.
Qed.

Lemma lifecycle_evolves (env : Env) (cs : list Call) (s : State) :
  evolves env s (after (lifecycle env cs) s).
Proof.
  apply (for_of_rule (perform env) (fun s _ s' => evolves env s s')).
  - apply evolves_refl.
  - intros s1 s2 _ s3. apply evolves_trans.
  - intros x s0. apply perform_evolves.
Qed.

(** ** The client reference *)

Lemma created_app (t d : Trace) : created (t ++ d) = (created t + created d)%nat.
Proof. unfold created. now rewrite filter_app, length_app. Qed.

Lemma only_client_app (c : NatAPI) (d1 d2 : Trace) :
  only_client c d1 -> only_client c d2 -> only_client c (d1 ++ d2).
Proof. intros H1 H2. apply Forall_app. now split. Qed.

Lemma acquires_refl (s : State) : acquires s (Return tt) s.
Proof.
  exists []. rewrite app_nil_r. split; [reflexivity|]. split; [reflexivity|].
  destruct (client (this s)).
  - repeat split. constructor.
  - split; [constructor|]. left. now split.
Qed.

Lemma acquires_trans (s1 s2 : State) (o : Outcome unit) (s3 : State) :
  acquires s1 (Return tt) s2 -> acquires s2 o s3 -> acquires s1 o s3.
Proof.
  intros (d1 & T1 & S1 & H1) (d2 & T2 & S2 & H2).
  exists (d1 ++ d2). split; [rewrite T2, T1, app_assoc; reflexivity|].
  split; [congruence|].
  rewrite created_app.
  destruct (client (this s1)) as [c|].
  - destruct H1 as (C1 & N1 & O1). rewrite C1 in H2.
    destruct H2 as (C2 & N2 & O2).
    repeat split; [assumption | lia | now apply only_client_app].
  - destruct H1 as (O1 & [(N1 & C1) | [(N1 & C1) | (N1 & C1 & e & E)]]).
    + rewrite C1 in H2. rewrite T1, created_app, N1, Nat.add_0_r in H2.
      destruct H2 as (O2 & H2).
      split; [now apply only_client_app|].
      rewrite N1. cbn [Nat.add]. exact H2.
    + rewrite C1 in H2. destruct H2 as (C2 & N2 & O2).
      split; [now apply only_client_app|].
      right; left. split; [lia | assumption].
    + discriminate E.
Qed.

Lemma map_addr_acquires (env : Env) (addr : Multiaddr) (s : State) :
  acquires s (outcome (map_addr env addr) s) (after (map_addr env addr) s).
Proof.
  unfold acquires. exec; finish_acquires.
Qed.

Lemma body_acquires (env : Env) (addr : Multiaddr) (s : State) :
  acquires s (outcome (_start_body env addr) s) (after (_start_body env addr) s).
Proof.
  destruct (eligible addr) eqn:E.
  - rewrite (body_maps env addr E). apply map_addr_acquires.
  - rewrite (body_skips env addr E). apply acquires_refl.
Qed.

Lemma loop_acquires (env : Env) (addrs : list Multiaddr) (s : State) :
  acquires s (outcome (for_of addrs (_start_body env)) s)
    (after (for_of addrs (_start_body env)) s).
Proof.
  apply (for_of_rule (_start_body env) acquires).
  - apply acquires_refl.
  - apply acquires_trans.
  - intros x s0. apply body_acquires.
Qed.

Lemma start_acquires (env : Env) (s : State) :
  acquires s (outcome (_start env) s) (after (_start env) s).
Proof.
  unfold _start, outcome, after, bind, call.
  set (s1 := {| this := this s; trace := trace s ++ [GetAddrs] |}).
  apply acquires_trans with s1; [|apply loop_acquires].
  exists [GetAddrs]. split; [reflexivity|]. split; [reflexivity|].
  subst s1. cbn [this trace]. destruct (client (this s)).
  - repeat split. finish_only_client.
  - split; [finish_only_client|]. left. now split.
Qed.

Lemma acquires_at_most_once (s : State) (o : Outcome unit) (s' : State) :
  acquires s o s' ->
  exists d, trace s' = trace s ++ d
            /\ started (this s') = started (this s)
            /\ (created d <= 1)%nat.
Proof.
  intros (d & T & S & H). exists d. split; [exact T|]. split; [exact S|].
  destruct (client (this s)).
  - destruct H as (_ & N & _). lia.
  - destruct H as (_ & [(N & _) | [(N & _) | (N & _)]]); lia.
Qed.

(** ** The calls of the host *)

Lemma lives_refl (env : Env) (s : State) : lives env s s.
Proof.
  exists []. rewrite app_nil_r. cbn. repeat split; auto.
Qed.

Lemma lives_trans (env : Env) (s1 s2 s3 : State) :
  lives env s1 s2 -> lives env s2 s3 -> lives env s1 s3.
Proof.
  intros (d1 & T1 & A1 & B1 & C1) (d2 & T2 & A2 & B2 & C2).
  exists (d1 ++ d2). split; [rewrite T2, T1, app_assoc; reflexivity|].
  rewrite created_app. repeat split.
  - destruct (A1 H) as [S2 N1]. now destruct (A2 S2).
  - destruct (A1 H) as [S2 N1]. destruct (A2 S2) as [_ N2]. lia.
  - destruct (B1 H) as [N1 Z1]. destruct (started (this s2)) eqn:S2.
    + destruct (A2 eq_refl) as [_ N2]. lia.
    + specialize (Z1 eq_refl). destruct (B2 eq_refl) as [N2 _]. lia.
  - intros S3. destruct (B1 H) as [N1 Z1]. destruct (started (this s2)) eqn:S2.
    + destruct (A2 eq_refl) as [S3' _]. congruence.
    + specialize (Z1 eq_refl). destruct (B2 eq_refl) as [_ Z2].
      specialize (Z2 S3). lia.
  - intros Hb. rewrite (C2 Hb). now apply C1.
Qed.

Lemma afterStart_skips (env : Env) (s : State) :
  (isBrowser env || negb (enabled (this s)) || started (this s))%bool = true ->
  afterStart env s = (Return tt, s).
Proof.
  intros H. unfold afterStart, bind, read, ret. now rewrite H.
Qed.

Lemma afterStart_runs (env : Env) (s : State) :
  (isBrowser env || negb (enabled (this s)) || started (this s))%bool = false ->
  afterStart env s
  = try_catch (_start env) log_error
      {| this := set_started true (this s); trace := trace s |}.
Proof.
  intros H. unfold afterStart, bind, read, assign. now rewrite H.
Qed.

Lemma afterStart_lives (env : Env) (s : State) :
  lives env s (after (afterStart env) s).
Proof.
  destruct (isBrowser env || negb (enabled (this s)) || started (this s))%bool eqn:G.
  - unfold after. rewrite (afterStart_skips env s G). apply lives_refl.
  - unfold after. rewrite (afterStart_runs env s G).
    apply orb_false_iff in G. destruct G as [G S0].
    apply orb_false_iff in G. destruct G as [B0 _].
    set (s1 := {| this := set_started true (this s); trace := trace s |}).
    pose proof (start_acquires env s1) as H.
    apply acquires_at_most_once in H. destruct H as (d & T & S & N).
    unfold try_catch. unfold after, outcome in T, S.
    subst s1. cbn [this trace set_started started] in T, S.
    destruct (_start env _) as [[[]|e] s2]; cbn [fst snd] in T, S |- *.
    + exists d. repeat split; intros; try congruence; try lia.
    + unfold log_error, call. cbn [snd this trace].
      exists (d ++ [LogError e]). rewrite created_app.
      change (created [LogError e]) with 0%nat.
      split; [rewrite T, app_assoc; reflexivity|].
      repeat split; intros; cbn in *; try congruence; try lia.
Qed.

Lemma stop_lives (env : Env) (s : State) :
  lives env s (after (stop env) s).
Proof.
  unfold stop, lives. exec.
  all: repeat rewrite <- app_assoc; cbn [app].
  all: first [ eexists; split; [reflexivity|]
             | exists []; split; [now rewrite app_nil_r|] ].
  all: cbn; repeat split; auto; intros; try congruence; try lia.
Qed.

Lemma perform_lives (env : Env) (c : Call) (s : State) :
  lives env s (after (perform env c) s).
Proof.
  destruct c; cbn [perform].
  - apply lives_refl.
  - apply lives_refl.
  - apply afterStart_lives.
  - apply stop_lives.
Qed.

Lemma lifecycle_lives (env : Env) (cs : list Call) (s : State) :
  lives env s (after (lifecycle env cs) s).
Proof.
  apply (for_of_rule (perform env) (fun s _ s' => lives env s s')).
  - apply lives_refl.
  - intros s1 s2 _ s3. apply lives_trans.
  - intros x s0. apply perform_lives.
Qed.

(** ** The steps of one mapping *)

Lemma observed_app (t d : Trace) : observed (t ++ d) = observed t ++ observed d.
Proof. apply flat_map_app. Qed.

Lemma requests_app (t d : Trace) : requests (t ++ d) = requests t ++ requests d.
Proof. apply flat_map_app. Qed.



Lemma publicIp_override (env : Env) (c : NatAPI) (s : State) (ip : string) :
  externalAddress (this s) = Some ip -> publicIp_of env c s = (Return ip, s).
Proof. intros H. unfold publicIp_of, bind, read, ret. now rewrite H. Qed.

Lemma publicIp_asked (env : Env) (c : NatAPI) (s : State) :
  externalAddress (this s) = None ->
  publicIp_of env c s =
  (client_externalIp env c (trace s),
   {| this := this s; trace := trace s ++ [ExternalIp c] |}).
Proof. intros H. unfold publicIp_of, bind, read, call. now rewrite H. Qed.

Lemma open_port_eq (env : Env) (addr : Multiaddr) (c : NatAPI) (ip : string)
    (s : State) :
  MultiaddrObject.transport (toOptions addr) = "tcp" ->
  let p := highPort_default (Math_random env (trace s)) in
  let request :=
    {| MapRequest.publicPort := p;
       MapRequest.localPort := MultiaddrObject.port (toOptions addr);
       MapRequest.localAddress := localAddress (this s);
       MapRequest.protocol := TCP |} in
  let t := trace s ++ [MathRandom; Log (opening ip p (toOptions addr))] in
  open_port env addr c ip s =
  match client_map env c request t with
  | None =>
      (Return tt,
       {| this := this s;
          trace := t ++ [Map c request;
                         AddObservedAddr
                           (fromNodeAddress
                              {| NodeAddress.family := 4;
                                 NodeAddress.address := ip;
                                 NodeAddress.port := p |} "tcp")] |})
  | Some e => (Throw e, {| this := this s; trace := t ++ [Map c request] |})
  end.
Proof.
  intros Htcp p request t. unfold open_port. rewrite Htcp.
  change (String.eqb (toUpperCase "tcp") "TCP") with true.
  unfold log, bind, call, read, settle. cbn [fst snd this trace].
  fold p. rewrite <- (app_assoc (trace s) [MathRandom] [_]).
  cbn [app]. fold t. fold request.
  destruct (client_map env c request t).
  - reflexivity.
  - rewrite <- (app_assoc t [_] [_]). reflexivity.
Qed.

Lemma getClient_quiet (env : Env) (s : State) :
  observed (trace (after (_getClient env) s)) = observed (trace s)
  /\ requests (trace (after (_getClient env) s)) = requests (trace s).
Proof.
  exec; rewrite ?observed_app, ?requests_app; cbn; rewrite ?app_nil_r; auto.
Qed.

Lemma publicIp_quiet (env : Env) (c : NatAPI) (s : State) :
  observed (trace (after (publicIp_of env c) s)) = observed (trace s)
  /\ requests (trace (after (publicIp_of env c) s)) = requests (trace s).
Proof.
  exec; rewrite ?observed_app, ?requests_app; cbn; rewrite ?app_nil_r; auto.
Qed.

Lemma Forall_requests (P : Event -> Prop) (Q : MapRequest.t -> Prop) (d : Trace) :
  (forall c r, P (Map c r) -> Q r) -> Forall P d -> Forall Q (requests d).
Proof.
  intros H F. induction F as [|e d Pe F IH]; [constructor|].
  destruct e; cbn; auto; constructor; eauto.
Qed.

Lemma Forall_observed (P : Event -> Prop) (Q : ObservedAddr -> Prop) (d : Trace) :
  (forall a, P (AddObservedAddr a) -> Q a) -> Forall P d -> Forall Q (observed d).
Proof.
  intros H F. induction F as [|e d Pe F IH]; [constructor|].
  destruct e; cbn; auto; constructor; eauto.
Qed.

Lemma Forall_no_externalIp (P : Event -> Prop) (d : Trace) :
  (forall c, ~ P (ExternalIp c)) -> Forall P d -> filter is_ExternalIp d = [].
Proof.
  intros H F. induction F as [|e d Pe F IH]; [reflexivity|].
  destruct e; cbn; auto. now apply H in Pe.
Qed.

Lemma evolves_appended {A} (env : Env) (m : M A) (s : State) :
  evolves env s (after m s) ->
  Forall (run_event env (config (this s))) (appended m s).
Proof.
  intros [_ (d & T & F)]. now rewrite (appended_eq m s d T).
Qed.

(** * The claims *)

(** C1. Of the bound addresses, only those that are thin-waist, of
    transport tcp, not loopback and of family 4 are mapped.  An iteration on
    any other address returns at once and leaves the instance and the trace
    as they were; the loop is the loop of the mapping steps over the
    eligible addresses; so is a run; and every mapping request of a run
    carries the port of an eligible bound address. *)
Theorem only_eligible_addresses_are_mapped (env : Env) :
  (forall addr,
      eligible addr = true <->
      isThinWaistAddress addr = true
      /\ MultiaddrObject.transport (toOptions addr) = "tcp"
      /\ isLoopback addr = false
      /\ MultiaddrObject.family (toOptions addr) = 4)
  /\ (forall addr s,
        eligible addr = false ->
        _start_body env addr s = (Return tt, s)
        /\ appended (_start_body env addr) s = [])
  /\ (forall addrs s,
        for_of addrs (_start_body env) s
        = for_of (filter eligible addrs) (map_addr env) s)
  /\ (forall s,
        _start env s
        = for_of (filter eligible (getAddrs env (trace s))) (map_addr env)
            {| this := this s; trace := trace s ++ [GetAddrs] |})
  /\ (forall s r,
        In r (requests (appended (_start env) s)) ->
        exists addr,
          In addr (getAddrs env (trace s))
          /\ eligible addr = true
          /\ MapRequest.localPort r = MultiaddrObject.port (toOptions addr)).
Proof.
  split; [apply eligible_spec|].
  split.
  { intros addr s E. rewrite (body_skips env addr E). split; [reflexivity|].
    apply appended_eq. unfold after, ret. cbn. now rewrite app_nil_r. }
  split; [apply for_of_eligible|].
  assert (Hstart : forall s,
             _start env s
             = for_of (filter eligible (getAddrs env (trace s))) (map_addr env)
                 {| this := this s; trace := trace s ++ [GetAddrs] |}).
  { intros s. unfold _start, bind, call. cbn [fst snd this trace].
    apply for_of_eligible. }
  split; [exact Hstart|].
  intros s r Hin.
  assert (Hloop : forall xs s0,
             exists d, trace (after (for_of xs (map_addr env)) s0) = trace s0 ++ d
                       /\ Forall (fun r => exists addr, In addr xs
                                    /\ MapRequest.localPort r
                                       = MultiaddrObject.port (toOptions addr))
                            (requests d)).
  { induction xs as [|x xs IH]; intros s0.
    - exists []. cbn. now rewrite app_nil_r.
    - assert (Hx : exists d, trace (after (map_addr env x) s0) = trace s0 ++ d
                     /\ Forall (fun r => MapRequest.localPort r
                                  = MultiaddrObject.port (toOptions x))
                          (requests d)).
      { exec; repeat rewrite <- app_assoc; cbn [app];
          first [ eexists; split; [reflexivity|]
                | exists []; split; [now rewrite app_nil_r|] ];
          cbn; repeat constructor. }
      destruct Hx as (d1 & T1 & F1).
      unfold after in *. rewrite for_of_cons.
      destruct (map_addr env x s0) as [[[]|e] s1]; cbn [snd] in *.
      + destruct (IH s1) as (d2 & T2 & F2).
        exists (d1 ++ d2). split; [rewrite T2, T1, app_assoc; reflexivity|].
        rewrite requests_app. apply Forall_app. split.
        * eapply Forall_impl; [|exact F1]. intros a Ha. exists x. cbn. auto.
        * eapply Forall_impl; [|exact F2]. intros a (y & Hy & Ha).
          exists y. cbn. auto.
      + exists d1. split; [exact T1|].
        eapply Forall_impl; [|exact F1]. intros a Ha. exists x. cbn. auto. }
  destruct (Hloop (filter eligible (getAddrs env (trace s)))
              {| this := this s; trace := trace s ++ [GetAddrs] |})
    as (d & T & F).
  unfold after in T. rewrite <- Hstart in T. cbn [trace] in T.
  rewrite <- app_assoc in T.
  rewrite (appended_eq (_start env) s _ T) in Hin. cbn in Hin.
  rewrite Forall_forall in F. destruct (F r Hin) as (addr & Ha & Hp).
  apply filter_In in Ha. exists addr. tauto.
Qed.

(** C4. Construction with an effective ttl (the given one, or 7200 when
    none is given) below 7200 throws a [CodeError] with the
    invalid-parameters code and makes no instance; with an effective ttl of
    at least 7200 it returns an instance, not started, without a client,
    that keeps the ttl. *)
Theorem constructor_checks_ttl (env : Env) (cs : NatManagerComponents)
    (init : NatManagerInit) :
  let effective := match init_ttl init with Some n => n | None => DEFAULT_TTL end in
  (effective < 7200 ->
   constructor env cs init
   = Throw (CodeError "NatManager ttl should be at least 7200 seconds"
              (ERR_INVALID_PARAMETERS env)))
  /\ (7200 <= effective ->
      exists m, constructor env cs init = Return m
                /\ ttl m = effective
                /\ started m = false
                /\ client m = None
                /\ enabled m = init_enabled init
                /\ externalAddress m = init_externalAddress init).
Proof.
  intros effective. unfold constructor. cbn [ttl]. fold effective.
  unfold DEFAULT_TTL in *. split; intros H.
  - destruct (Z.ltb_spec effective 7200); [reflexivity | lia].
  - destruct (Z.ltb_spec effective 7200); [lia|].
    eexists. split; [reflexivity|]. cbn. auto.
Qed.

(** C10. Every mapping request sent to the gateway client has protocol
    TCP: the protocol chosen for an address that passes the tests of the
    loop is TCP, and so is the protocol of every request of a run, and of
    every request made during any calls of the host. *)
Theorem every_request_is_tcp (env : Env) :
  (forall addr,
      eligible addr = true ->
      (if String.eqb (toUpperCase (MultiaddrObject.transport (toOptions addr))) "TCP"
       then TCP else UDP) = TCP)
  /\ (forall s,
        Forall (fun r => MapRequest.protocol r = TCP)
          (requests (appended (_start env) s)))
  /\ (forall calls s,
        Forall (fun r => MapRequest.protocol r = TCP)
          (requests (appended (lifecycle env calls) s))).
Proof.
  split.
  { intros addr E. apply eligible_spec in E. destruct E as (_ & Htcp & _).
    rewrite Htcp. reflexivity. }
  split.
  - intros s.
    apply Forall_requests with (P := run_event env (config (this s))).
    + intros c r H. apply H.
    + apply evolves_appended, start_evolves.
  - intros calls s.
    apply Forall_requests with (P := run_event env (config (this s))).
    + intros c r H. apply H.
    + apply evolves_appended, lifecycle_evolves.
Qed.

Lemma map_addr_eq (env : Env) (addr : Multiaddr) (s : State) :
  map_addr env addr s =
  match _getClient env s with
  | (Throw e, s1) => (Throw e, s1)
  | (Return c, s1) =>
      match publicIp_of env c s1 with
      | (Throw e, s2) => (Throw e, s2)
      | (Return ip, s2) =>
          match isPrivateIp env ip with
          | Some true => (Throw (JsError (is_private_message ip)), s2)
          | None => (Throw (JsError (not_an_ip_message ip)), s2)
          | Some false => open_port env addr c ip s2
          end
      end
  end.
Proof.
  unfold map_addr, bind.
  destruct (_getClient env s) as [[c|e] s1]; [|reflexivity].
  destruct (publicIp_of env c s1) as [[ip|e] s2]; [|reflexivity].
  now destruct (isPrivateIp env ip) as [[|]|].
Qed.

Lemma getClient_trace (env : Env) (s : State) :
  exists d, trace (after (_getClient env) s) = trace s ++ d
            /\ requests d = [] /\ observed d = [].
Proof.
  exec; first [ eexists; split; [reflexivity|]
              | exists []; split; [now rewrite app_nil_r|] ]; now cbn.
Qed.

Lemma publicIp_trace (env : Env) (c : NatAPI) (s : State) :
  exists d, trace (after (publicIp_of env c) s) = trace s ++ d
            /\ requests d = [] /\ observed d = [].
Proof.
  exec; first [ eexists; split; [reflexivity|]
              | exists []; split; [now rewrite app_nil_r|] ]; now cbn.
Qed.

Lemma In_requests (c : NatAPI) (r : MapRequest.t) (d : Trace) :
  In (Map c r) d -> In r (requests d).
Proof.
  intros H. unfold requests. apply in_flat_map. exists (Map c r).
  split; [exact H | now left].
Qed.

(** What one mapping step on a tcp address leaves, by the way it ends:
    before the port is chosen it makes no request and registers nothing;
    then the request carries the port just chosen, and the address is
    registered when the request succeeded. *)
Lemma map_addr_shape (env : Env) (addr : Multiaddr) (s : State) :
  MultiaddrObject.transport (toOptions addr) = "tcp" ->
  exists pre,
    requests pre = [] /\ observed pre = []
    /\ ((exists e, outcome (map_addr env addr) s = Throw e
                   /\ trace (after (map_addr env addr) s) = trace s ++ pre)
        \/ exists c ip,
            let t := trace s ++ pre in
            let p := highPort_default (Math_random env t) in
            let request :=
              {| MapRequest.publicPort := p;
                 MapRequest.localPort := MultiaddrObject.port (toOptions addr);
                 MapRequest.localAddress := localAddress (this s);
                 MapRequest.protocol := TCP |} in
            let t' := t ++ [MathRandom; Log (opening ip p (toOptions addr))] in
            (exists s1 s2,
                _getClient env s = (Return c, s1)
                /\ publicIp_of env c s1 = (Return ip, s2)
                /\ trace s2 = t)
            /\ isPrivateIp env ip = Some false
            /\ ((exists e,
                   client_map env c request t' = Some e
                   /\ outcome (map_addr env addr) s = Throw e
                   /\ trace (after (map_addr env addr) s) = t' ++ [Map c request])
                \/ (client_map env c request t' = None
                    /\ outcome (map_addr env addr) s = Return tt
                    /\ trace (after (map_addr env addr) s)
                       = t' ++ [Map c request;
                                AddObservedAddr
                                  (fromNodeAddress
                                     {| NodeAddress.family := 4;
                                        NodeAddress.address := ip;
                                        NodeAddress.port := p |} "tcp")]))).
Proof.
  intros Htcp.
  destruct (getClient_trace env s) as (d1 & T1 & R1 & O1).
  assert (L1 : localAddress (this (after (_getClient env) s)) = localAddress (this s))
    by (exec; reflexivity).
  unfold outcome, after. rewrite map_addr_eq. unfold after in T1, L1.
  destruct (_getClient env s) as [[c|e] s1] eqn:G; cbn [snd] in T1, L1.
  2:{ exists d1. repeat split; auto. left. exists e. now split. }
  destruct (publicIp_trace env c s1) as (d2 & T2 & R2 & O2).
  assert (L2 : localAddress (this (after (publicIp_of env c) s1))
               = localAddress (this s1)) by (exec; reflexivity).
  unfold after in T2, L2.
  destruct (publicIp_of env c s1) as [[ip|e] s2] eqn:P; cbn [snd] in T2, L2.
  2:{ exists (d1 ++ d2). rewrite requests_app, observed_app, R1, R2, O1, O2.
      repeat split; auto. left. exists e. split; [reflexivity|].
      cbn [snd]. rewrite T2, T1, app_assoc. reflexivity. }
  exists (d1 ++ d2). rewrite requests_app, observed_app, R1, R2, O1, O2.
  split; [reflexivity|]. split; [reflexivity|].
  assert (T : trace s2 = trace s ++ d1 ++ d2) by (rewrite T2, T1, app_assoc; reflexivity).
  destruct (isPrivateIp env ip) as [[|]|] eqn:Priv.
  - left. eexists. split; [reflexivity | exact T].
  - right. exists c, ip. cbv beta iota zeta.
    split; [exists s1, s2; repeat split; auto|]. split; [exact Priv|].
    pose proof (open_port_eq env addr c ip s2 Htcp) as E. cbv zeta in E.
    rewrite T, L2, L1 in E. rewrite E.
    destruct (client_map env c _ _) as [e|].
    + left. exists e. repeat split; reflexivity.
    + right. repeat split; reflexivity.
  - left. eexists. split; [reflexivity | exact T].
Qed.

Lemma map_addr_sends (env : Env) (addr : Multiaddr) (s : State) (c : NatAPI)
    (r : MapRequest.t) :
  MultiaddrObject.transport (toOptions addr) = "tcp" ->
  In (Map c r) (appended (map_addr env addr) s) ->
  exists t msg d,
    trace (after (map_addr env addr) s) = t ++ MathRandom :: Log msg :: Map c r :: d
    /\ MapRequest.publicPort r = highPort_default (Math_random env t).
Proof.
  intros Htcp Hin.
  destruct (map_addr_shape env addr s Htcp)
    as (pre & Rp & Op & [(e & _ & T) | (c0 & ip & H)]).
  - rewrite (appended_eq _ _ _ T) in Hin. apply In_requests in Hin.
    rewrite Rp in Hin. destruct Hin.
  - cbv zeta in H. destruct H as (_ & _ & [(e & _ & _ & T) | (_ & _ & T)]).
    + assert (T' := T). rewrite <- !app_assoc in T'.
      rewrite (appended_eq _ _ _ T') in Hin.
      apply in_app_or in Hin. destruct Hin as [Hin|Hin].
      { apply In_requests in Hin. rewrite Rp in Hin. destruct Hin. }
      cbn in Hin. destruct Hin as [Hin|[Hin|[Hin|[]]]]; try discriminate.
      injection Hin as <- <-.
      eexists _, _, []. split; [|reflexivity].
      rewrite T, <- (app_assoc _ [_; _] [_]). reflexivity.
    + assert (T' := T). rewrite <- !app_assoc in T'.
      rewrite (appended_eq _ _ _ T') in Hin.
      apply in_app_or in Hin. destruct Hin as [Hin|Hin].
      { apply In_requests in Hin. rewrite Rp in Hin. destruct Hin. }
      cbn in Hin. destruct Hin as [Hin|[Hin|[Hin|[Hin|[]]]]]; try discriminate.
      injection Hin as <- <-.
      eexists _, _, [_]. split; [|reflexivity].
      rewrite T, <- (app_assoc _ [_; _] [_; _]). reflexivity.
Qed.

(** C9. The port chooser returns an integer of [1024, 65535] for every
    number that [Math.random()] can return, a binary64 number that is at
    least 0 and below 1; every mapping request made during any calls of the
    host carries a port of that range; and the port of a request is the
    port that was chosen just before it in the same iteration: the request
    follows the call of [Math.random()] and carries [highPort] of its
    value. *)
Theorem chosen_port_in_range_and_sent :
  (forall r,
      Number.is_number r -> r < Number.of_Z 1 ->
      1024 <= highPort_default r <= 65535)
  /\ (forall env,
        random_ok env ->
        (forall calls s,
            Forall (fun r => 1024 <= MapRequest.publicPort r <= 65535)
              (requests (appended (lifecycle env calls) s)))
        /\ (forall s,
              Forall (fun r => 1024 <= MapRequest.publicPort r <= 65535)
                (requests (appended (_start env) s)))
        /\ (forall addr s c r,
              In (Map c r) (appended (_start_body env addr) s) ->
              exists t msg d,
                trace (after (_start_body env addr) s)
                = t ++ MathRandom :: Log msg :: Map c r :: d
                /\ MapRequest.publicPort r = highPort_default (Math_random env t)
                /\ 1024 <= MapRequest.publicPort r <= 65535)).
Proof.
  split; [exact highPort_range|].
  intros env Hrnd.
  assert (Hev : forall m c r,
             run_event env m (Map c r) ->
             1024 <= MapRequest.publicPort r <= 65535).
  { intros m c r (_ & _ & t & ->). destruct (Hrnd t). now apply highPort_range. }
  split; [|split].
  - intros calls s. eapply Forall_requests; [apply Hev|].
    apply evolves_appended, lifecycle_evolves.
  - intros s. eapply Forall_requests; [apply Hev|].
    apply evolves_appended, start_evolves.
  - intros addr s c r Hin. destruct (eligible addr) eqn:E.
    + rewrite (body_maps env addr E) in *.
      apply eligible_spec in E. destruct E as (_ & Htcp & _).
      destruct (map_addr_sends env addr s c r Htcp Hin) as (t & msg & d & T & P).
      exists t, msg, d. split; [exact T|]. split; [exact P|].
      rewrite P. destruct (Hrnd t). now apply highPort_range.
    + rewrite (body_skips env addr E) in Hin.
      unfold appended, after, ret in Hin. cbn [snd] in Hin.
      rewrite skipn_all in Hin. destruct Hin.
Qed.

(** C3. In an iteration on an eligible address for which a client [c] was
    acquired and a public address [ip] was resolved and found not private,
    the port [p] that is chosen is an integer of [1024, 65535] and one
    mapping of [p] is requested.  When the map call succeeds the iteration
    ends normally, and exactly one address was given to the address
    manager: of family 4, of address [ip], of port [p], of transport tcp.
    When it fails the iteration throws its error, and no address was
    given.  An iteration that ends normally is one of the first kind. *)
Theorem successful_mapping_registers_one_address (env : Env) (addr : Multiaddr)
    (s : State) :
  random_ok env ->
  eligible addr = true ->
  (forall c s1 ip s2,
      _getClient env s = (Return c, s1) ->
      publicIp_of env c s1 = (Return ip, s2) ->
      isPrivateIp env ip = Some false ->
      let p := highPort_default (Math_random env (trace s2)) in
      let request :=
        {| MapRequest.publicPort := p;
           MapRequest.localPort := MultiaddrObject.port (toOptions addr);
           MapRequest.localAddress := localAddress (this s);
           MapRequest.protocol := TCP |} in
      let t := trace s2 ++ [MathRandom; Log (opening ip p (toOptions addr))] in
      1024 <= p <= 65535
      /\ requests (appended (_start_body env addr) s) = [request]
      /\ (client_map env c request t = None ->
          outcome (_start_body env addr) s = Return tt
          /\ observed (appended (_start_body env addr) s)
             = [fromNodeAddress
                  {| NodeAddress.family := 4;
                     NodeAddress.address := ip;
                     NodeAddress.port := p |} "tcp"])
      /\ (forall e,
            client_map env c request t = Some e ->
            outcome (_start_body env addr) s = Throw e
            /\ observed (appended (_start_body env addr) s) = []))
  /\ (outcome (_start_body env addr) s = Return tt ->
      exists c s1 ip s2,
        _getClient env s = (Return c, s1)
        /\ publicIp_of env c s1 = (Return ip, s2)
        /\ isPrivateIp env ip = Some false
        /\ client_map env c
             {| MapRequest.publicPort := highPort_default (Math_random env (trace s2));
                MapRequest.localPort := MultiaddrObject.port (toOptions addr);
                MapRequest.localAddress := localAddress (this s);
                MapRequest.protocol := TCP |}
             (trace s2
              ++ [MathRandom;
                  Log (opening ip (highPort_default (Math_random env (trace s2)))
                         (toOptions addr))]) = None).
Proof.
  intros Hrnd E. rewrite (body_maps env addr E).
  apply eligible_spec in E. destruct E as (_ & Htcp & _).
  split.
  - intros c s1 ip s2 G P Priv p request t.
    assert (Hp : 1024 <= p <= 65535).
    { subst p. destruct (Hrnd (trace s2)). now apply highPort_range. }
    split; [exact Hp|].
    destruct (getClient_trace env s) as (d1 & T1 & R1 & O1).
    destruct (publicIp_trace env c s1) as (d2 & T2 & R2 & O2).
    assert (L1 : localAddress (this (after (_getClient env) s))
                 = localAddress (this s)) by (exec; reflexivity).
    assert (L2 : localAddress (this (after (publicIp_of env c) s1))
                 = localAddress (this s1)) by (exec; reflexivity).
    unfold after in T1, T2, L1, L2. rewrite G in T1, L1. rewrite P in T2, L2.
    cbn [snd] in T1, T2, L1, L2.
    assert (Hmap : map_addr env addr s = open_port env addr c ip s2)
      by (rewrite map_addr_eq, G, P, Priv; reflexivity).
    pose proof (open_port_eq env addr c ip s2 Htcp) as Hopen.
    cbv zeta in Hopen. rewrite L2, L1 in Hopen.
    fold p in Hopen. fold request in Hopen. fold t in Hopen.
    assert (Ht : t = trace s ++ d1 ++ d2
                     ++ [MathRandom; Log (opening ip p (toOptions addr))])
      by (subst t; rewrite T2, T1, <- !app_assoc; reflexivity).
    unfold outcome, appended, after. rewrite Hmap, Hopen.
    destruct (client_map env c request t) as [e|]; cbn [fst snd trace].
    + rewrite Ht, <- !app_assoc, skipn_app, skipn_all, Nat.sub_diag.
      cbn [skipn app].
      rewrite !requests_app, !observed_app, R1, R2, O1, O2. cbn.
      split; [reflexivity|]. split; [discriminate|].
      intros e' He'. injection He' as <-. split; reflexivity.
    + rewrite Ht, <- !app_assoc, skipn_app, skipn_all, Nat.sub_diag.
      cbn [skipn app].
      rewrite !requests_app, !observed_app, R1, R2, O1, O2. cbn.
      split; [reflexivity|]. split; [split; reflexivity | discriminate].
  - intros Hok.
    destruct (map_addr_shape env addr s Htcp)
      as (pre & _ & _ & [(e & O & _) | (c & ip & H)]); [congruence|].
    cbv zeta in H.
    destruct H as ((s1 & s2 & G & P & T2) & Priv & [(e & _ & O & _) | (Hmap & _)]);
      [congruence|].
    exists c, s1, ip, s2. rewrite T2. auto.
Qed.

(** C2. In a run over the bound addresses [pre ++ addr :: rest], when the
    iterations on [pre] ended normally, [addr] is eligible, and the public
    address [ip] resolved for it is private or is no IP address, the run
    ends by throwing an error whose message names [ip] and says which of
    the two it is; no request and no address was added on or after [addr]:
    the requests made and the addresses registered are those of the
    iterations on [pre]. *)
Theorem unusable_public_address_aborts_run (env : Env) (s : State)
    (pre : list Multiaddr) (addr : Multiaddr) (rest : list Multiaddr)
    (s1 : State) (c : NatAPI) (s2 : State) (ip : string) (s3 : State) :
  getAddrs env (trace s) = pre ++ addr :: rest ->
  for_of pre (_start_body env) {| this := this s; trace := trace s ++ [GetAddrs] |}
  = (Return tt, s1) ->
  eligible addr = true ->
  _getClient env s1 = (Return c, s2) ->
  publicIp_of env c s2 = (Return ip, s3) ->
  isPrivateIp env ip <> Some false ->
  _start env s
  = (Throw (JsError (match isPrivateIp env ip with
                     | Some _ => is_private_message ip
                     | None => not_an_ip_message ip
                     end)), s3)
  /\ observed (trace s3) = observed (trace s1)
  /\ requests (trace s3) = requests (trace s1).
Proof.
  intros Haddrs Hpre E G P Priv. split.
  - unfold _start, bind, call. cbn [fst snd this trace].
    rewrite Haddrs, for_of_app, Hpre, for_of_cons, (body_maps env addr E).
    rewrite map_addr_eq, G, P.
    destruct (isPrivateIp env ip) as [[|]|]; [reflexivity | congruence | reflexivity].
  - destruct (getClient_quiet env s1) as [O1 R1].
    destruct (publicIp_quiet env c s2) as [O2 R2].
    unfold after in *. rewrite G in O1, R1. rewrite P in O2, R2.
    cbn [snd] in *. split; congruence.
Qed.

Lemma constructor_fields (env : Env) (cs : NatManagerComponents)
    (init : NatManagerInit) (m : NatManager) :
  constructor env cs init = Return m ->
  started m = false /\ client m = None
  /\ externalAddress m = init_externalAddress init
  /\ enabled m = init_enabled init.
Proof.
  unfold constructor. destruct (_ <? _); [discriminate|].
  intros H. injection H as <-. cbn. auto.
Qed.

(** C7. An instance constructed with an [externalAddress] never calls
    [externalIp()] of the gateway client, whatever calls the host makes on
    it, and every address it registers has the configured address; so in
    every run of an instance that has the override, where the public
    address is the override itself and no call is made for it. *)
Theorem override_replaces_externalIp (env : Env) (cs : NatManagerComponents)
    (init : NatManagerInit) (m : NatManager) (ip : string) (t : Trace)
    (calls : list Call) :
  constructor env cs init = Return m ->
  init_externalAddress init = Some ip ->
  filter is_ExternalIp (appended (lifecycle env calls) (fresh m t)) = []
  /\ Forall (fun a => NodeAddress.address (nodeAddress a) = ip)
       (observed (appended (lifecycle env calls) (fresh m t)))
  /\ (forall s,
        externalAddress (this s) = Some ip ->
        filter is_ExternalIp (appended (_start env) s) = []
        /\ Forall (fun a => NodeAddress.address (nodeAddress a) = ip)
             (observed (appended (_start env) s))
        /\ forall c, publicIp_of env c s = (Return ip, s)).
Proof.
  intros Hc Hinit.
  assert (Hno : forall m0, externalAddress m0 = Some ip ->
                  forall c, ~ run_event env (config m0) (ExternalIp c)).
  { intros m0 H c. cbn. congruence. }
  assert (Hobs : forall m0, externalAddress m0 = Some ip ->
                   forall a, run_event env (config m0) (AddObservedAddr a) ->
                             NodeAddress.address (nodeAddress a) = ip).
  { intros m0 H a (_ & _ & Ha & _). apply Ha. exact H. }
  destruct (constructor_fields env cs init m Hc) as (_ & _ & Hext & _).
  rewrite Hinit in Hext.
  split; [|split].
  - eapply Forall_no_externalIp; [apply (Hno m Hext)|].
    apply (evolves_appended env (lifecycle env calls) (fresh m t)),
      lifecycle_evolves.
  - eapply Forall_observed; [apply (Hobs m Hext)|].
    apply (evolves_appended env (lifecycle env calls) (fresh m t)),
      lifecycle_evolves.
  - intros s Hs. split; [|split].
    + eapply Forall_no_externalIp; [apply (Hno (this s) Hs)|].
      apply evolves_appended, start_evolves.
    + eapply Forall_observed; [apply (Hobs (this s) Hs)|].
      apply evolves_appended, start_evolves.
    + intros c. now apply publicIp_override.
Qed.


(** C5, as the code has it.  [afterStart] does nothing at all in a browser,
    when the instance is not enabled and when it is started.  Otherwise it
    sets [started] and then runs [_start], whose failure it logs and does
    not throw.  Nothing resets [started]: not a run, at any point of its
    loop, and no call of the host; so every [afterStart] that follows, from
    within the run or after it, does nothing. *)
Theorem afterStart_starts_once (env : Env) :
  (forall s,
      isBrowser env = true \/ enabled (this s) = false \/ started (this s) = true ->
      afterStart env s = (Return tt, s))
  /\ (forall s,
        isBrowser env = false -> enabled (this s) = true ->
        started (this s) = false ->
        afterStart env s
        = try_catch (_start env) log_error
            {| this := set_started true (this s); trace := trace s |}
        /\ outcome (afterStart env) s = Return tt
        /\ started (this (after (afterStart env) s)) = true)
  /\ (forall addrs s,
        started (this (after (for_of addrs (_start_body env)) s))
        = started (this s))
  /\ (forall s, started (this (after (_start env) s)) = started (this s))
  /\ (forall calls s,
        started (this s) = true ->
        started (this (after (lifecycle env calls) s)) = true
        /\ afterStart env (after (lifecycle env calls) s)
           = (Return tt, after (lifecycle env calls) s)).
Proof.
  split.
  { intros s H. apply afterStart_skips.
    destruct H as [-> | [-> | ->]]; cbn; rewrite ?orb_true_r; reflexivity. }
  assert (Hrun : forall s, started (this (after (_start env) s)) = started (this s)).
  { intros s. destruct (start_acquires env s) as (_ & _ & S & _). exact S. }
  split.
  { intros s B E S.
    assert (G : (isBrowser env || negb (enabled (this s)) || started (this s))%bool
                = false) by (rewrite B, E, S; reflexivity).
    split; [now apply afterStart_runs|].
    unfold outcome, after. rewrite (afterStart_runs env s G).
    set (s1 := {| this := set_started true (this s); trace := trace s |}).
    specialize (Hrun s1). unfold after in Hrun. unfold try_catch.
    destruct (_start env s1) as [[[]|e] s2]; cbn in Hrun |- *; auto. }
  split.
  { intros addrs s.
    destruct (loop_acquires env addrs s) as (_ & _ & S & _). exact S. }
  split; [exact Hrun|].
  intros calls s S.
  destruct (lifecycle_lives env calls s) as (d & _ & H & _).
  destruct (H S) as [S' _]. split; [exact S'|].
  apply afterStart_skips. rewrite S'. apply orb_true_r.
Qed.

Lemma reachable_client_not_browser (env : Env) (s : State) (c : NatAPI) :
  reachable env s -> client (this s) = Some c -> isBrowser env = false.
Proof.
  intros (cs & init & m & t & calls & Hc & ->) H.
  destruct (isBrowser env) eqn:B; [|reflexivity].
  destruct (lifecycle_lives env calls (fresh m t)) as (_ & _ & _ & _ & Hb).
  rewrite (Hb B) in H. cbn in H.
  destruct (constructor_fields env cs init m Hc) as (_ & N & _). congruence.
Qed.

(** C6, as the code has it.  [stop] never throws.  When no client is held
    it does nothing.  When an instance that was constructed and used
    through its interface holds a client, [stop] calls [close] on it once;
    when [close] succeeds the reference is cleared, and a second [stop]
    does nothing; when [close] fails the error is logged and the reference
    is kept. *)
Theorem stop_closes_client (env : Env) :
  (forall s, client (this s) = None -> stop env s = (Return tt, s))
  /\ (forall s, outcome (stop env) s = Return tt)
  /\ (forall s c,
        reachable env s ->
        client (this s) = Some c ->
        (client_close env c (trace s) = None ->
         after (stop env) s
         = {| this := set_client None (this s); trace := trace s ++ [Close c] |}
         /\ stop env (after (stop env) s) = (Return tt, after (stop env) s))
        /\ (forall e,
              client_close env c (trace s) = Some e ->
              after (stop env) s
              = {| this := this s; trace := trace s ++ [Close c; LogError e] |})).
Proof.
  split.
  { intros s H. unfold stop, bind, read, ret. rewrite H.
    now destruct (isBrowser env). }
  split.
  { intros s. unfold stop. exec; reflexivity. }
  intros s c Hr Hc.
  pose proof (reachable_client_not_browser env s c Hr Hc) as B.
  split.
  - intros Hclose.
    assert (E : after (stop env) s
                = {| this := set_client None (this s);
                     trace := trace s ++ [Close c] |}).
    { unfold after, stop, bind, read, try_catch, call, assign, settle.
      rewrite Hc, B. cbn [fst snd this trace]. rewrite Hclose. reflexivity. }
    split; [exact E|]. rewrite E.
    unfold stop, bind, read, ret. rewrite B. reflexivity.
  - intros e Hclose.
    unfold after, stop, bind, read, try_catch, call, assign, settle, log_error.
    rewrite Hc, B. cbn [fst snd this trace]. rewrite Hclose.
    unfold call. cbn [snd this trace]. rewrite <- app_assoc. reflexivity.
Qed.

(** * The claims on sample runs *)

Example highPort_of_zero : highPort_default 0 = 1024.
Proof. vm_compute. reflexivity. Qed.

Example highPort_of_half : highPort_default (2 ^ 1073) = 33280.
Proof. vm_compute. reflexivity. Qed.

Example highPort_of_pred_one : highPort_default Number.pred_one = 65535.
Proof. vm_compute. reflexivity. Qed.

(** [1 - 2^-1074] is below 1 and is no binary64 number; the bound on the
    port rests on the 53 bits of the numbers. *)
Example highPort_needs_a_number :
  Number.round (2 ^ 1074 - 1) <> 2 ^ 1074 - 1
  /\ highPort_default (2 ^ 1074 - 1) = 65536.
Proof. split; [vm_compute; discriminate | vm_compute; reflexivity]. Qed.

(** The loopback address of the sample host is skipped, and the run of the
    sample host maps its two tcp addresses of family 4. *)
Lemma only_eligible_addresses_witness :
  _start_body sample_gateway addr_loopback sample_state = (Return tt, sample_state)
  /\ appended (_start_body sample_gateway addr_loopback) sample_state = []
  /\ _start sample_gateway sample_state
     = for_of [addr_lan; addr_lan2] (map_addr sample_gateway)
         {| this := this sample_state; trace := [GetAddrs] |}.
Proof.
  destruct (only_eligible_addresses_are_mapped sample_gateway)
    as (_ & Hskip & _ & Hrun & _).
  destruct (Hskip addr_loopback sample_state eq_refl) as [H1 H2].
  split; [exact H1|]. split; [exact H2|]. exact (Hrun sample_state).
Defined.

Lemma unusable_public_address_witness :
  _start double_nat_env sample_state
  = (Throw (JsError (is_private_message "10.0.0.5")),
     after (publicIp_of double_nat_env 0%nat)
       (after (_getClient double_nat_env) double_nat_state))
  /\ observed (trace (after (publicIp_of double_nat_env 0%nat)
                        (after (_getClient double_nat_env) double_nat_state)))
     = observed (trace double_nat_state)
  /\ requests (trace (after (publicIp_of double_nat_env 0%nat)
                        (after (_getClient double_nat_env) double_nat_state)))
     = requests (trace double_nat_state).
Proof.
  apply (unusable_public_address_aborts_run double_nat_env sample_state
           [addr_loopback; addr_lan] addr_lan2 [addr_udp]
           double_nat_state 0%nat
           (after (_getClient double_nat_env) double_nat_state)
           "10.0.0.5").
  - reflexivity.
  - vm_compute. reflexivity.
  - reflexivity.
  - vm_compute. reflexivity.
  - vm_compute. reflexivity.
  - vm_compute. discriminate.
Defined.

(** The addresses registered by that run are the one of its first mapping. *)
Example unusable_public_address_registered :
  observed (trace (after (_start double_nat_env) sample_state))
  = [fromNodeAddress
       {| NodeAddress.family := 4;
          NodeAddress.address := "203.0.113.7";
          NodeAddress.port := 33280 |} "tcp"].
Proof. vm_compute. reflexivity. Qed.

Lemma successful_mapping_witness :
  1024 <= 33280 <= 65535
  /\ requests (appended (_start_body sample_gateway addr_lan) sample_state)
     = [{| MapRequest.publicPort := 33280;
           MapRequest.localPort := 4001;
           MapRequest.localAddress := None;
           MapRequest.protocol := TCP |}]
  /\ outcome (_start_body sample_gateway addr_lan) sample_state = Return tt
  /\ observed (appended (_start_body sample_gateway addr_lan) sample_state)
     = [fromNodeAddress
          {| NodeAddress.family := 4;
             NodeAddress.address := "203.0.113.7";
             NodeAddress.port := 33280 |} "tcp"].
Proof.
  assert (Hrnd : random_ok sample_gateway).
  { intros t. split; [split|].
    - vm_compute. discriminate.
    - vm_compute. reflexivity.
    - vm_compute. reflexivity. }
  destruct (successful_mapping_registers_one_address sample_gateway addr_lan
              sample_state Hrnd eq_refl) as [Hmap _].
  specialize (Hmap 0%nat (after (_getClient sample_gateway) sample_state)
                "203.0.113.7"
                (after (publicIp_of sample_gateway 0%nat)
                   (after (_getClient sample_gateway) sample_state))
                eq_refl eq_refl eq_refl).
  cbv zeta in Hmap. destruct Hmap as (Hp & Hreq & Hok & _).
  specialize (Hok eq_refl). destruct Hok as [Hout Hobs].
  split; [vm_compute in Hp |- *; exact Hp|].
  split; [vm_compute in Hreq |- *; exact Hreq|].
  split; [exact Hout|].
  vm_compute in Hobs |- *. exact Hobs.
Defined.

(** The spec's example: 192.168.1.10:4001/tcp behind 203.0.113.7. *)
Example successful_mapping_registered :
  observed (appended (_start_body sample_gateway addr_lan) sample_state)
  = [fromNodeAddress
       {| NodeAddress.family := 4;
          NodeAddress.address := "203.0.113.7";
          NodeAddress.port := 33280 |} "tcp"].
Proof. vm_compute. reflexivity. Qed.

Lemma constructor_checks_ttl_witness :
  constructor sample_gateway sample_components (sample_init true None (Some 7199))
  = Throw (CodeError "NatManager ttl should be at least 7200 seconds"
             (ERR_INVALID_PARAMETERS sample_gateway))
  /\ exists m,
      constructor sample_gateway sample_components (sample_init true None (Some 7200))
      = Return m
      /\ ttl m = 7200 /\ started m = false /\ client m = None
      /\ enabled m = true /\ externalAddress m = None.
Proof.
  split.
  - apply (proj1 (constructor_checks_ttl sample_gateway sample_components
                    (sample_init true None (Some 7199)))).
    cbn. lia.
  - apply (proj2 (constructor_checks_ttl sample_gateway sample_components
                    (sample_init true None (Some 7200)))).
    cbn. lia.
Defined.

(** No ttl given: the default is accepted. *)
Example constructor_default_ttl :
  constructor sample_gateway sample_components (sample_init true None None)
  = Return (sample_manager true None).
Proof. reflexivity. Qed.

(** C5, as the claim has it, fails in a browser: the instance is enabled
    and not started, and [afterStart] leaves it not started. *)
Lemma afterStart_in_browser_does_not_start :
  enabled (this sample_state) = true
  /\ started (this sample_state) = false
  /\ afterStart browser_env sample_state = (Return tt, sample_state)
  /\ started (this (after (afterStart browser_env) sample_state)) = false.
Proof. repeat split; vm_compute; reflexivity. Qed.

Lemma afterStart_starts_once_witness :
  afterStart browser_env sample_state = (Return tt, sample_state)
  /\ started (this (after (afterStart sample_gateway) sample_state)) = true
  /\ afterStart sample_gateway
       (after (lifecycle sample_gateway [CallStop; CallAfterStart])
          (after (afterStart sample_gateway) sample_state))
     = (Return tt,
        after (lifecycle sample_gateway [CallStop; CallAfterStart])
          (after (afterStart sample_gateway) sample_state)).
Proof.
  destruct (afterStart_starts_once browser_env) as (Hskip & _).
  destruct (afterStart_starts_once sample_gateway) as (_ & Hrun & _ & _ & Hkeep).
  split; [apply Hskip; left; reflexivity|].
  destruct (Hrun sample_state eq_refl eq_refl eq_refl) as (_ & _ & Hs).
  split; [exact Hs|].
  exact (proj2 (Hkeep [CallStop; CallAfterStart] _ Hs)).
Defined.

(** C6, as the claim has it, fails when [close] fails: the instance holds a
    client, [stop] calls [close] and logs its error, and the client is
    still held. *)
Lemma stop_keeps_client_when_close_fails :
  client (this held_state) = Some 0%nat
  /\ appended (stop failing_close_env) held_state
     = [Close 0%nat; LogError (Rejected "close failed")]
  /\ outcome (stop failing_close_env) held_state = Return tt
  /\ client (this (after (stop failing_close_env) held_state)) = Some 0%nat.
Proof. repeat split; vm_compute; reflexivity. Qed.

Lemma held_state_reachable : reachable failing_close_env held_state.
Proof.
  exists sample_components, (sample_init true None None),
    (sample_manager true None), [], [CallAfterStart].
  split; vm_compute; reflexivity.
Qed.

Lemma stop_closes_client_witness :
  after (stop failing_close_env) held_state
  = {| this := this held_state;
       trace := trace held_state ++ [Close 0%nat; LogError (Rejected "close failed")] |}
  /\ after (stop sample_gateway) (after (afterStart sample_gateway) sample_state)
     = {| this := set_client None (this (after (afterStart sample_gateway) sample_state));
          trace := trace (after (afterStart sample_gateway) sample_state)
                   ++ [Close 0%nat] |}
  /\ stop sample_gateway
       (after (stop sample_gateway) (after (afterStart sample_gateway) sample_state))
     = (Return tt,
        after (stop sample_gateway) (after (afterStart sample_gateway) sample_state)).
Proof.
  split.
  - apply (proj2 (proj2 (proj2 (stop_closes_client failing_close_env))
                    held_state 0%nat held_state_reachable eq_refl)).
    reflexivity.
  - apply (proj1 (proj2 (proj2 (stop_closes_client sample_gateway))
                    (after (afterStart sample_gateway) sample_state) 0%nat
                    (ex_intro _ sample_components
                       (ex_intro _ (sample_init true None None)
                          (ex_intro _ (sample_manager true None)
                             (ex_intro _ []
                                (ex_intro _ [CallAfterStart]
                                   (conj eq_refl eq_refl))))))
                    eq_refl)).
    reflexivity.
Defined.

Lemma override_witness :
  filter is_ExternalIp
    (appended (lifecycle sample_gateway [CallAfterStart; CallStop])
       (fresh (sample_manager true (Some "203.0.113.7")) [])) = []
  /\ Forall (fun a => NodeAddress.address (nodeAddress a) = "203.0.113.7")
       (observed
          (appended (lifecycle sample_gateway [CallAfterStart; CallStop])
             (fresh (sample_manager true (Some "203.0.113.7")) []))).
Proof.
  destruct (override_replaces_externalIp sample_gateway sample_components
              (sample_init true (Some "203.0.113.7") None)
              (sample_manager true (Some "203.0.113.7")) "203.0.113.7" []
              [CallAfterStart; CallStop] eq_refl eq_refl) as (H1 & H2 & _).
  exact (conj H1 H2).
Defined.

(** With the override, the sample run registers two addresses. *)
Example override_registers :
  List.length
    (observed
       (appended (lifecycle sample_gateway [CallAfterStart; CallStop])
          (fresh (sample_manager true (Some "203.0.113.7")) []))) = 2%nat.
Proof. vm_compute. reflexivity. Qed.


(** The sample run maps two addresses through one client. *)
Example client_made_once_run :
  created (appended (_start sample_gateway) sample_state) = 1%nat
  /\ List.length (requests (appended (_start sample_gateway) sample_state)) = 2%nat.
Proof. split; vm_compute; reflexivity. Qed.

Lemma chosen_port_witness :
  1024 <= highPort_default (2 ^ 1073) <= 65535
  /\ Forall (fun r => 1024 <= MapRequest.publicPort r <= 65535)
       (requests (appended (_start sample_gateway) sample_state)).
Proof.
  destruct chosen_port_in_range_and_sent as (Hrange & Hsent).
  split.
  - apply Hrange.
    + split; [vm_compute; discriminate | vm_compute; reflexivity].
    + vm_compute. reflexivity.
  - apply (Hsent sample_gateway).
    intros t. split; [split|].
    + vm_compute. discriminate.
    + vm_compute. reflexivity.
    + vm_compute. reflexivity.
Defined.

Lemma every_request_is_tcp_witness :
  (if String.eqb (toUpperCase (MultiaddrObject.transport (toOptions addr_lan))) "TCP"
   then TCP else UDP) = TCP
  /\ Forall (fun r => MapRequest.protocol r = TCP)
       (requests (appended (_start sample_gateway) sample_state)).
Proof.
  destruct (every_request_is_tcp sample_gateway) as (Hsel & Hrun & _).
  split; [apply Hsel; reflexivity | apply Hrun].
Defined.

(** * Further properties

    ** The port chooser *)

Lemma round_at_exact (n k u : Z) :
  0 <= u <= k -> 0 <= n < 2 ^ Number.prec ->
  Number.round_at (n * 2 ^ k) u = n * 2 ^ (k - u).
Proof.
  intros Hu Hn. unfold Number.prec in Hn.
  destruct (Z.eq_dec n 0) as [->|Hn0].
  { rewrite !Z.mul_0_l. apply round_at_zero. lia. }
  unfold Number.round_at, Number.prec.
  rewrite Z.log2_mul_pow2 by lia.
  assert (Hl : Z.log2 n < 53) by (apply Z.log2_lt_pow2; lia).
  set (s := Z.max u (k + Z.log2 n - (53 - 1))).
  assert (Hs : u <= s <= k) by (subst s; lia).
  replace (n * 2 ^ k) with (n * 2 ^ (k - s) * 2 ^ s).
  2:{ rewrite <- Z.mul_assoc, <- Z.pow_add_r by lia. do 2 f_equal. lia. }
  rewrite rne_exact by lia.
  rewrite <- Z.mul_assoc, <- Z.pow_add_r by lia. do 2 f_equal. lia.
Qed.

(** X1. Every port of [1024, 65535] can be chosen: for each there is a
    binary64 number that is at least 0 and below 1 for which [highPort]
    returns it. *)
Theorem highPort_reaches_every_port (p : Z) :
  1024 <= p <= 65535 ->
  exists r,
    Number.is_number r /\ r < Number.of_Z 1 /\ highPort_default r = p.
Proof.
  intros Hp.
  set (R := ((p - 1024) * 2 ^ 32 + 64511) / 64512).
  assert (E32 : 2 ^ 32 = 4294967296) by reflexivity.
  assert (HR : (p - 1024) * 2 ^ 32 <= R * 64512 < (p - 1024) * 2 ^ 32 + 64512).
  { subst R. rewrite E32.
    pose proof (Z.div_mod ((p - 1024) * 4294967296 + 64511) 64512 ltac:(lia)).
    pose proof (Z.mod_pos_bound ((p - 1024) * 4294967296 + 64511) 64512 ltac:(lia)).
    lia. }
  assert (HR0 : 0 <= R < 2 ^ 32) by (rewrite E32 in *; lia).
  assert (E53 : 2 ^ 53 = 9007199254740992) by reflexivity.
  exists (R * 2 ^ 1042).
  assert (Hround : forall n k u, 0 <= u <= k -> 0 <= n < 2 ^ 53 ->
             Number.round_at (n * 2 ^ k) u = n * 2 ^ (k - u))
    by exact round_at_exact.
  split; [|split].
  - split.
    + apply Z.mul_nonneg_nonneg; [lia | apply Z.pow_nonneg; lia].
    + unfold Number.round. rewrite Hround by (rewrite ?E53, ?E32 in *; lia).
      now rewrite Z.sub_0_r.
  - unfold Number.of_Z, Number.emin.
    replace (2 ^ 1074) with (2 ^ 32 * 2 ^ 1042)
      by (rewrite <- Z.pow_add_r by lia; reflexivity).
    rewrite Z.mul_1_l. apply Z.mul_lt_mono_pos_r; [|lia].
    apply Z.pow_pos_nonneg; lia.
  - unfold highPort_default, highPort.
    assert (Hc : Number.add (Number.sub (Number.of_Z 65535) (Number.of_Z 1024))
                   (Number.of_Z 1) = 64512 * 2 ^ 1074)
      by (vm_compute; reflexivity).
    rewrite Hc. unfold Number.mul, Number.add, Number.floor, Number.of_Z, Number.emin.
    replace (R * 2 ^ 1042 * (64512 * 2 ^ 1074)) with (R * 64512 * 2 ^ 2116).
    2:{ replace (2 ^ 2116) with (2 ^ 1042 * 2 ^ 1074)
          by (rewrite <- Z.pow_add_r by lia; reflexivity). ring. }
    rewrite Hround by (rewrite ?E53, ?E32 in *; lia).
    replace (2116 - 1074) with 1042 by reflexivity.
    replace (R * 64512 * 2 ^ 1042 + 1024 * 2 ^ 1074)
      with ((R * 64512 + 1024 * 2 ^ 32) * 2 ^ 1042).
    2:{ replace (2 ^ 1074) with (2 ^ 32 * 2 ^ 1042)
          by (rewrite <- Z.pow_add_r by lia; reflexivity). ring. }
    rewrite Hround by (rewrite ?E53, ?E32 in *; lia).
    rewrite Z.sub_0_r.
    replace (2 ^ 1074) with (2 ^ 32 * 2 ^ 1042)
      by (rewrite <- Z.pow_add_r by lia; reflexivity).
    rewrite Z.div_mul_cancel_r.
    2:{ rewrite E32. lia. }
    2:{ apply Z.pow_nonzero; lia. }
    rewrite E32 in *.
    assert (Hq : (R * 64512 + 1024 * 4294967296) / 4294967296 = p).
    { symmetry. apply Z.div_unique with (R * 64512 - (p - 1024) * 4294967296); lia. }
    exact Hq.
Qed.

(** X2. [highPort] grows with the random value, for every [min] and [max]
    with [0 <= min <= max]; at 0 it returns [Math.floor(min)] when [min] is
    a number. *)
Theorem highPort_grows_with_random (r r' min max : Number.t) :
  0 <= min <= max ->
  0 <= r <= r' ->
  highPort r min max <= highPort r' min max
  /\ (Number.is_number min -> highPort 0 min max = Number.floor min).
Proof.
  intros Hm Hr. unfold highPort.
  set (c := Number.add (Number.sub max min) (Number.of_Z 1)).
  assert (He : 0 <= Number.emin) by (unfold Number.emin; lia).
  assert (Hc : 0 <= c).
  { subst c. unfold Number.add, Number.sub. apply round_at_nonneg; [lia|].
    assert (0 <= Number.round_at (max - min) 0) by (apply round_at_nonneg; lia).
    assert (0 <= Number.of_Z 1).
    { unfold Number.of_Z. apply Z.mul_nonneg_nonneg; [lia|].
      apply Z.pow_nonneg; lia. }
    lia. }
  split.
  - unfold Number.floor. apply Z.div_le_mono.
    + apply Z.pow_pos_nonneg; lia.
    + unfold Number.add. apply round_at_mono; [lia|].
      assert (Number.mul r c <= Number.mul r' c).
      { unfold Number.mul. apply round_at_mono; [exact He|].
        split; [apply Z.mul_nonneg_nonneg; lia|].
        apply Z.mul_le_mono_nonneg_r; lia. }
      assert (0 <= Number.mul r c).
      { unfold Number.mul. apply round_at_nonneg; [exact He|].
        apply Z.mul_nonneg_nonneg; lia. }
      lia.
  - intros [_ Hmin]. unfold Number.mul. rewrite Z.mul_0_l.
    rewrite round_at_zero by exact He.
    unfold Number.add. rewrite Z.add_0_l.
    unfold Number.round in Hmin. now rewrite Hmin.
Qed.

(** ** The calls of an instance *)

(** A relation between traces that holds of a trace and itself, that
    composes, that holds when a call of [getAddrs], of [close] or of the
    logger is appended, and that every iteration of the loop establishes,
    holds of any calls of the host. *)
Lemma lifecycle_trace_rule (env : Env) (R : Trace -> Trace -> Prop) :
  (forall t, R t t) ->
  (forall t1 t2 t3, R t1 t2 -> R t2 t3 -> R t1 t3) ->
  (forall t, R t (t ++ [GetAddrs])) ->
  (forall t e, R t (t ++ [LogError e])) ->
  (forall t c, R t (t ++ [Close c])) ->
  (forall addr s, R (trace s) (trace (after (_start_body env addr) s))) ->
  forall calls s, R (trace s) (trace (after (lifecycle env calls) s)).
Proof.
  intros Hrefl Htrans Hget Hlog Hclose Hbody.
  assert (Hloop : forall addrs s,
             R (trace s) (trace (after (for_of addrs (_start_body env)) s))).
  { intros addrs s.
    apply (for_of_rule (_start_body env) (fun s _ s' => R (trace s) (trace s'))).
    - intros s0. apply Hrefl.
    - intros s1 s2 _ s3. apply Htrans.
    - intros x s0. apply Hbody. }
  assert (Hstart : forall s, R (trace s) (trace (after (_start env) s))).
  { intros s. unfold _start, after, bind, call. cbn [fst snd this trace].
    eapply Htrans; [apply Hget|].
    apply (Hloop (getAddrs env (trace s))
             {| this := this s; trace := trace s ++ [GetAddrs] |}). }
  apply (for_of_rule (perform env) (fun s _ s' => R (trace s) (trace s'))).
  - intros s0. apply Hrefl.
  - intros s1 s2 _ s3. apply Htrans.
  - intros c s. destruct c; cbn [perform].
    + apply Hrefl.
    + apply Hrefl.
    + unfold after, afterStart, bind, read, assign, try_catch.
      destruct (isBrowser env || negb (enabled (this s)) || started (this s))%bool;
        [apply Hrefl|].
      cbn [fst snd this trace].
      set (s1 := {| this := set_started true (this s); trace := trace s |}).
      pose proof (Hstart s1) as H. unfold after in H.
      destruct (_start env s1) as [[[]|e] s2]; cbn [snd] in H |- *; [exact H|].
      unfold log_error, call. cbn [snd trace].
      eapply Htrans; [exact H | apply Hlog].
    + unfold stop.
      exec; first [ apply Hrefl
                  | apply Hclose
                  | eapply Htrans; [apply Hclose | apply Hlog] ].
Qed.

Lemma In_observed (a : ObservedAddr) (d : Trace) :
  In (AddObservedAddr a) d -> In a (observed d).
Proof.
  intros H. unfold observed. apply in_flat_map. exists (AddObservedAddr a).
  split; [exact H | now left].
Qed.

Lemma granted_first_nil (env : Env) (t : Trace) : granted_first env t [].
Proof. intros a []. Qed.

Lemma granted_first_app (env : Env) (t d1 d2 : Trace) :
  granted_first env t d1 -> granted_first env (t ++ d1) d2 ->
  granted_first env t (d1 ++ d2).
Proof.
  intros H1 H2 a Hin. apply in_app_or in Hin. destruct Hin as [Hin|Hin].
  - destruct (H1 a Hin) as (d0 & c & r & d' & -> & Hg & Hp).
    exists d0, c, r, (d' ++ d2). split; [|now split].
    rewrite <- app_assoc. reflexivity.
  - destruct (H2 a Hin) as (d0 & c & r & d' & -> & Hg & Hp).
    exists (d1 ++ d0), c, r, d'. split; [|split; [|exact Hp]].
    + rewrite <- app_assoc. reflexivity.
    + rewrite app_assoc. exact Hg.
Qed.

Lemma granted_first_quiet (env : Env) (t d : Trace) :
  observed d = [] -> granted_first env t d.
Proof. intros H a Hin. apply In_observed in Hin. rewrite H in Hin. destruct Hin. Qed.

Lemma body_granted_first (env : Env) (addr : Multiaddr) (s : State) :
  exists d, trace (after (_start_body env addr) s) = trace s ++ d
            /\ granted_first env (trace s) d.
Proof.
  destruct (eligible addr) eqn:E.
  2:{ rewrite (body_skips env addr E). exists []. cbn.
      split; [now rewrite app_nil_r | apply granted_first_nil]. }
  rewrite (body_maps env addr E).
  apply eligible_spec in E. destruct E as (_ & Htcp & _).
  destruct (map_addr_shape env addr s Htcp)
    as (pre & Rp & Op & [(e & _ & T) | (c & ip & H)]).
  { exists pre. split; [exact T | now apply granted_first_quiet]. }
  cbv zeta in H. destruct H as (_ & _ & [(e & _ & _ & T) | (Hmap & _ & T)]).
  - eexists. split; [rewrite T, <- !app_assoc; reflexivity|].
    apply granted_first_quiet. rewrite !observed_app, Op. reflexivity.
  - eexists. split; [rewrite T, <- !app_assoc; reflexivity|].
    apply granted_first_app; [now apply granted_first_quiet|].
    intros a Hin. cbn in Hin.
    destruct Hin as [Hin|[Hin|[Hin|[Hin|[]]]]]; try discriminate.
    injection Hin as <-.
    eexists [_; _], _, _, []. split; [reflexivity|].
    split; [exact Hmap | reflexivity].
Qed.

(** X5. An address is given to the address manager only right after a
    mapping request of its port that the gateway granted. *)
Theorem registered_only_after_granted_mapping (env : Env) (calls : list Call)
    (s : State) (a : ObservedAddr) :
  In (AddObservedAddr a) (appended (lifecycle env calls) s) ->
  exists t c r d,
    trace (after (lifecycle env calls) s) = t ++ Map c r :: AddObservedAddr a :: d
    /\ client_map env c r t = None
    /\ MapRequest.publicPort r = NodeAddress.port (nodeAddress a).
Proof.
  intros Hin.
  assert (H : exists d, trace (after (lifecycle env calls) s) = trace s ++ d
                        /\ granted_first env (trace s) d).
  { apply (lifecycle_trace_rule env
             (fun t t' => exists d, t' = t ++ d /\ granted_first env t d)).
    - intros t. exists []. split; [now rewrite app_nil_r | apply granted_first_nil].
    - intros t1 t2 t3 (d1 & -> & G1) (d2 & -> & G2). exists (d1 ++ d2).
      split; [now rewrite app_assoc | now apply granted_first_app].
    - intros t. eexists. split; [reflexivity | now apply granted_first_quiet].
    - intros t e. eexists. split; [reflexivity | now apply granted_first_quiet].
    - intros t c. eexists. split; [reflexivity | now apply granted_first_quiet].
    - intros addr s0. apply body_granted_first. }
  destruct H as (d & T & G). rewrite (appended_eq _ _ _ T) in Hin.
  destruct (G a Hin) as (d0 & c & r & d2 & -> & Hg & Hp).
  exists (trace s ++ d0), c, r, d2. split; [|now split].
  rewrite T, <- app_assoc. reflexivity.
Qed.

Lemma Forall_upnpNat_calls (P : Event -> Prop) (Q : UpnpOptions.t -> Prop)
    (d : Trace) :
  (forall o, P (UpnpNat o) -> Q o) -> Forall P d -> Forall Q (upnpNat_calls d).
Proof.
  intros H F. induction F as [|e d Pe F IH]; [constructor|].
  destruct e; cbn; auto; constructor; eauto.
Qed.

Lemma constructor_options (env : Env) (cs : NatManagerComponents)
    (init : NatManagerInit) (m : NatManager) :
  constructor env cs init = Return m ->
  options_of (config m) = options_from env cs init
  /\ 7200 <= ttl m
  /\ localAddress m = init_localAddress init.
Proof.
  unfold constructor, DEFAULT_TTL. cbn [ttl].
  destruct (Z.ltb_spec (match init_ttl init with Some n => n | None => 7200 end) 7200);
    [discriminate|].
  intros E. injection E as <-. cbn. auto.
Qed.

(** X3. The gateway client is made with the options of the constructor's
    argument, with the defaults of lines 91-93 for those not given, and its
    ttl is at least 7200. *)
Theorem client_is_made_with_the_configuration (env : Env)
    (cs : NatManagerComponents) (init : NatManagerInit) (m : NatManager)
    (t : Trace) (calls : list Call) :
  constructor env cs init = Return m ->
  Forall (fun o => o = options_from env cs init /\ 7200 <= UpnpOptions.ttl o)
    (upnpNat_calls (appended (lifecycle env calls) (fresh m t))).
Proof.
  intros Hc. destruct (constructor_options env cs init m Hc) as (Ho & Ht & _).
  apply Forall_upnpNat_calls with (P := run_event env (config m)).
  - intros o ->. rewrite Ho. split; [reflexivity|].
    rewrite <- Ho. exact Ht.
  - apply (evolves_appended env (lifecycle env calls) (fresh m t)),
      lifecycle_evolves.
Qed.

(** X4. Every mapping request carries the [localAddress] of the
    constructor's argument. *)
Theorem requests_carry_the_local_address (env : Env)
    (cs : NatManagerComponents) (init : NatManagerInit) (m : NatManager)
    (t : Trace) (calls : list Call) :
  constructor env cs init = Return m ->
  Forall (fun r => MapRequest.localAddress r = init_localAddress init)
    (requests (appended (lifecycle env calls) (fresh m t))).
Proof.
  intros Hc. destruct (constructor_options env cs init m Hc) as (_ & _ & Hl).
  apply Forall_requests with (P := run_event env (config m)).
  - intros c r (_ & H & _). rewrite H. exact Hl.
  - apply (evolves_appended env (lifecycle env calls) (fresh m t)),
      lifecycle_evolves.
Qed.

Lemma perform_returns (env : Env) (c : Call) (s : State) :
  outcome (perform env c) s = Return tt.
Proof.
  destruct c; cbn [perform]; try reflexivity.
  - unfold outcome, afterStart, bind, read, assign, try_catch.
    destruct (isBrowser env || negb (enabled (this s)) || started (this s))%bool;
      [reflexivity|].
    cbn [fst snd this trace].
    now destruct (_start env _) as [[[]|e] s2].
  - unfold stop. exec; reflexivity.
Qed.

(** X7. No call of the host throws, whatever the collaborators answer. *)
Theorem no_call_throws (env : Env) (calls : list Call) (s : State) :
  outcome (lifecycle env calls) s = Return tt.
Proof.
  revert s. induction calls as [|c calls IH]; intros s; [reflexivity|].
  unfold lifecycle, outcome. rewrite for_of_cons.
  pose proof (perform_returns env c s) as H. unfold outcome in H.
  destruct (perform env c s) as [[[]|e] s1]; cbn [fst] in H; [|discriminate].
  apply IH.
Qed.

(** X8. An error thrown by the iteration on one address ends the run: the
    addresses after it get no iteration, [afterStart] logs the error once
    and returns normally. *)
Theorem error_ends_run_and_is_logged (env : Env) (s : State)
    (pre : list Multiaddr) (addr : Multiaddr) (rest : list Multiaddr)
    (s1 : State) (e : Error) (s2 : State) :
  isBrowser env = false ->
  enabled (this s) = true ->
  started (this s) = false ->
  getAddrs env (trace s) = pre ++ addr :: rest ->
  for_of pre (_start_body env)
    {| this := set_started true (this s); trace := trace s ++ [GetAddrs] |}
  = (Return tt, s1) ->
  _start_body env addr s1 = (Throw e, s2) ->
  _start env {| this := set_started true (this s); trace := trace s |}
  = (Throw e, s2)
  /\ afterStart env s
     = (Return tt, {| this := this s2; trace := trace s2 ++ [LogError e] |}).
Proof.
  intros B E S Haddrs Hpre Hbody.
  assert (Hrun : _start env {| this := set_started true (this s); trace := trace s |}
                 = (Throw e, s2)).
  { unfold _start, bind, call. cbn [fst snd this trace].
    rewrite Haddrs, for_of_app, Hpre, for_of_cons, Hbody. reflexivity. }
  split; [exact Hrun|].
  rewrite afterStart_runs by (rewrite B, E, S; reflexivity).
  unfold try_catch. rewrite Hrun. reflexivity.
Qed.

Lemma perform_settled (env : Env) (c : Call) (s : State) :
  started (this s) = true ->
  started (this (after (perform env c) s)) = true
  /\ exists d, trace (after (perform env c) s) = trace s ++ d
               /\ Forall (fun e => is_release e = true) d.
Proof.
  intros S. destruct c; cbn [perform].
  - split; [exact S|]. exists []. cbn. now rewrite app_nil_r.
  - split; [exact S|]. exists []. cbn. now rewrite app_nil_r.
  - unfold after. rewrite afterStart_skips by (rewrite S; apply orb_true_r).
    split; [exact S|]. exists []. cbn. now rewrite app_nil_r.
  - unfold stop. exec.
    all: split; [exact S|].
    all: repeat rewrite <- app_assoc; cbn [app].
    all: first [ eexists; split; [reflexivity|]
               | exists []; split; [now rewrite app_nil_r|] ].
    all: repeat constructor.
Qed.

(** X9. An instance runs at most once: once [started] is set, the calls of
    the host make no call but [close] and the logger, so no client is made,
    no mapping requested and no address registered, also after [stop]. *)
Theorem started_instance_never_maps_again (env : Env) (calls : list Call)
    (s : State) :
  started (this s) = true ->
  started (this (after (lifecycle env calls) s)) = true
  /\ Forall (fun e => is_release e = true) (appended (lifecycle env calls) s)
  /\ created (appended (lifecycle env calls) s) = 0%nat
  /\ requests (appended (lifecycle env calls) s) = []
  /\ observed (appended (lifecycle env calls) s) = [].
Proof.
  intros S.
  assert (H : started (this (after (lifecycle env calls) s)) = true
              /\ exists d, trace (after (lifecycle env calls) s) = trace s ++ d
                           /\ Forall (fun e => is_release e = true) d).
  { apply (for_of_rule (perform env)
             (fun s _ s' =>
                started (this s) = true ->
                started (this s') = true
                /\ exists d, trace s' = trace s ++ d
                             /\ Forall (fun e => is_release e = true) d));
      [| | |exact S].
    - intros s0 S0. split; [exact S0|]. exists []. now rewrite app_nil_r.
    - intros s1 s2 _ s3 H1 H2 S1.
      destruct (H1 S1) as (S2 & d1 & T1 & F1).
      destruct (H2 S2) as (S3 & d2 & T2 & F2).
      split; [exact S3|]. exists (d1 ++ d2).
      split; [rewrite T2, T1, app_assoc; reflexivity | now apply Forall_app].
    - intros c s0. apply perform_settled. }
  destruct H as (S' & d & T & F). rewrite (appended_eq _ _ _ T).
  split; [exact S'|]. split; [exact F|].
  clear T. induction F as [|e d He F IH]; [now cbn|].
  destruct IH as (C & R & O).
  destruct e; try discriminate He; cbn; auto.
Qed.

Lemma perform_inert (env : Env) (c : Call) (s : State) :
  client (this s) = None ->
  started (this s) = true \/ enabled (this s) = false \/ isBrowser env = true ->
  perform env c s = (Return tt, s).
Proof.
  intros C H. destruct c; cbn [perform]; try reflexivity.
  - apply afterStart_skips.
    destruct H as [-> | [-> | ->]]; cbn; rewrite ?orb_true_r; reflexivity.
  - unfold stop, bind, read, ret. rewrite C. now destruct (isBrowser env).
Qed.

Lemma lifecycle_inert (env : Env) (calls : list Call) (s : State) :
  client (this s) = None ->
  started (this s) = true \/ enabled (this s) = false \/ isBrowser env = true ->
  lifecycle env calls s = (Return tt, s).
Proof.
  intros C H. induction calls as [|c calls IH]; [reflexivity|].
  unfold lifecycle. rewrite for_of_cons, (perform_inert env c s C H). exact IH.
Qed.




(** X11. An instance that is not enabled, and any instance in a browser, is
    inert: no call of the host makes any call or changes the instance. *)
Theorem disabled_instance_is_inert (env : Env) (cs : NatManagerComponents)
    (init : NatManagerInit) (m : NatManager) (t : Trace) (calls : list Call) :
  constructor env cs init = Return m ->
  init_enabled init = false \/ isBrowser env = true ->
  lifecycle env calls (fresh m t) = (Return tt, fresh m t).
Proof.
  intros Hc H.
  destruct (constructor_fields env cs init m Hc) as (_ & N & _ & En).
  apply lifecycle_inert; [exact N|]. right. cbn [this fresh].
  rewrite En. exact H.
Qed.

Lemma map_addr_normal (env : Env) (addr : Multiaddr) (s : State) :
  MultiaddrObject.transport (toOptions addr) = "tcp" ->
  outcome (map_addr env addr) s = Return tt ->
  externalAddress (this (after (map_addr env addr) s)) = externalAddress (this s)
  /\ exists d,
      trace (after (map_addr env addr) s) = trace s ++ d
      /\ map MapRequest.localPort (requests d)
         = [MultiaddrObject.port (toOptions addr)]
      /\ List.length (observed d) = 1%nat
      /\ (externalAddress (this s) = None ->
          List.length (filter is_ExternalIp d) = 1%nat).
Proof.
  intros Htcp. unfold map_addr, open_port. rewrite Htcp.
  change (String.eqb (toUpperCase "tcp") "TCP") with true.
  exec; intros H; try discriminate H.
  all: split; [first [reflexivity | assumption]|].
  all: repeat rewrite <- app_assoc; cbn [app].
  all: eexists; split; [reflexivity|].
  all: cbn; repeat split; try reflexivity; intros; congruence.
Qed.

Lemma loop_normal (env : Env) (xs : list Multiaddr) :
  Forall (fun a => MultiaddrObject.transport (toOptions a) = "tcp") xs ->
  forall s,
    outcome (for_of xs (map_addr env)) s = Return tt ->
    exists d,
      trace (after (for_of xs (map_addr env)) s) = trace s ++ d
      /\ map MapRequest.localPort (requests d)
         = map (fun a => MultiaddrObject.port (toOptions a)) xs
      /\ List.length (observed d) = List.length xs
      /\ (externalAddress (this s) = None ->
          List.length (filter is_ExternalIp d) = List.length xs).
Proof.
  induction 1 as [|x xs Hx F IH]; intros s Hok.
  - exists []. cbn. rewrite app_nil_r. auto.
  - unfold outcome, after in *. rewrite for_of_cons in *.
    pose proof (map_addr_normal env x s Hx) as Hb. unfold outcome, after in Hb.
    destruct (map_addr env x s) as [[[]|e] s1]; cbn [fst snd] in *;
      [|discriminate].
    destruct (Hb eq_refl) as (Hext & d1 & T1 & R1 & O1 & X1).
    destruct (IH s1 Hok) as (d2 & T2 & R2 & O2 & X2).
    exists (d1 ++ d2). split; [rewrite T2, T1, app_assoc; reflexivity|].
    rewrite requests_app, observed_app, filter_app, map_app, !length_app.
    rewrite R1, R2, O1, O2. cbn. repeat split.
    intros Hn. rewrite X1 by exact Hn. rewrite X2 by congruence. reflexivity.
Qed.

(** X6. A run that ends normally has mapped every eligible bound address,
    once and in the order of [getAddrs]: its requests carry their ports in
    that order, it registered as many addresses, and, when no
    [externalAddress] is configured, it asked the gateway for its public
    address once for each of them. *)
Theorem normal_run_maps_every_eligible_address (env : Env) (s : State) :
  outcome (_start env) s = Return tt ->
  map MapRequest.localPort (requests (appended (_start env) s))
  = map (fun a => MultiaddrObject.port (toOptions a))
      (filter eligible (getAddrs env (trace s)))
  /\ List.length (observed (appended (_start env) s))
     = List.length (filter eligible (getAddrs env (trace s)))
  /\ (externalAddress (this s) = None ->
      List.length (filter is_ExternalIp (appended (_start env) s))
      = List.length (filter eligible (getAddrs env (trace s)))).
Proof.
  intros Hok.
  assert (Hstart : _start env s
                   = for_of (filter eligible (getAddrs env (trace s))) (map_addr env)
                       {| this := this s; trace := trace s ++ [GetAddrs] |}).
  { unfold _start, bind, call. cbn [fst snd this trace]. apply for_of_eligible. }
  assert (Htcp : Forall (fun a => MultiaddrObject.transport (toOptions a) = "tcp")
                   (filter eligible (getAddrs env (trace s)))).
  { apply Forall_forall. intros a Ha. apply filter_In in Ha.
    destruct Ha as [_ Ha]. now apply eligible_spec in Ha. }
  unfold outcome in Hok. rewrite Hstart in Hok.
  destruct (loop_normal env _ Htcp _ Hok) as (d & T & R & O & X).
  unfold after in T. rewrite <- Hstart in T. cbn [trace this] in T, X.
  rewrite <- app_assoc in T.
  rewrite (appended_eq (_start env) s _ T). cbn [app].
  split; [exact R|]. split; [exact O|]. exact X.
Qed.

Lemma body_registers_public (env : Env) (addr : Multiaddr) (s : State) :
  exists d, trace (after (_start_body env addr) s) = trace s ++ d
            /\ Forall (public_tcp4 env) (observed d).
Proof.
  destruct (eligible addr) eqn:E.
  2:{ rewrite (body_skips env addr E). exists []. cbn.
      split; [now rewrite app_nil_r | constructor]. }
  rewrite (body_maps env addr E).
  apply eligible_spec in E. destruct E as (_ & Htcp & _).
  destruct (map_addr_shape env addr s Htcp)
    as (pre & Rp & Op & [(e & _ & T) | (c & ip & H)]).
  { exists pre. split; [exact T | rewrite Op; constructor]. }
  cbv zeta in H. destruct H as (_ & Priv & [(e & _ & _ & T) | (_ & _ & T)]).
  - eexists. split; [rewrite T, <- !app_assoc; reflexivity|].
    rewrite !observed_app, Op. cbn. constructor.
  - eexists. split; [rewrite T, <- !app_assoc; reflexivity|].
    rewrite !observed_app, Op. cbn. repeat constructor. exact Priv.
Qed.

(** X12. Every address given to the address manager is of family 4, of
    transport tcp, and carries an address that [isPrivateIp] found
    public. *)
Theorem registered_addresses_are_public (env : Env) (calls : list Call)
    (s : State) :
  Forall (public_tcp4 env) (observed (appended (lifecycle env calls) s)).
Proof.
  assert (H : exists d, trace (after (lifecycle env calls) s) = trace s ++ d
                        /\ Forall (public_tcp4 env) (observed d)).
  { apply (lifecycle_trace_rule env
             (fun t t' => exists d, t' = t ++ d
                                    /\ Forall (public_tcp4 env) (observed d))).
    - intros t. exists []. split; [now rewrite app_nil_r | constructor].
    - intros t1 t2 t3 (d1 & -> & F1) (d2 & -> & F2). exists (d1 ++ d2).
      split; [now rewrite app_assoc|].
      rewrite observed_app. now apply Forall_app.
    - intros t. eexists. split; [reflexivity | constructor].
    - intros t e. eexists. split; [reflexivity | constructor].
    - intros t c. eexists. split; [reflexivity | constructor].
    - intros addr s0. apply body_registers_public. }
  destruct H as (d & T & F). now rewrite (appended_eq _ _ _ T).
Qed.

Lemma perform_started (env : Env) (c : Call) (s : State) :
  enabled (this (after (perform env c) s)) = enabled (this s)
  /\ started (this (after (perform env c) s))
     = (started (this s)
        || (negb (isBrowser env) && enabled (this s) && is_afterStart c))%bool.
Proof.
  split.
  { destruct (perform_evolves env c s) as [C _].
    apply (f_equal enabled) in C. exact C. }
  destruct c; cbn [perform is_afterStart];
    rewrite ?andb_false_r, ?orb_false_r, ?andb_true_r; try reflexivity.
  - destruct (isBrowser env || negb (enabled (this s)) || started (this s))%bool eqn:G.
    + unfold after. rewrite (afterStart_skips env s G). cbn [snd].
      destruct (isBrowser env), (enabled (this s)), (started (this s));
        cbn in *; congruence.
    + unfold after. rewrite (afterStart_runs env s G).
      set (s1 := {| this := set_started true (this s); trace := trace s |}).
      destruct (start_acquires env s1) as (_ & _ & S & _).
      unfold after in S. unfold try_catch.
      destruct (isBrowser env), (enabled (this s)), (started (this s));
        cbn in G; try discriminate G.
      destruct (_start env s1) as [[[]|e] s2]; cbn in S |- *; exact S.
  - unfold stop. exec; reflexivity.
Qed.

(** X13. [isStarted] tells whether an [afterStart] took effect: after any
    calls of the host, [started] is set when it was set before, or when
    [afterStart] was among the calls of an enabled instance outside a
    browser; [start] and [stop] do not change it. *)
Theorem started_tells_afterStart (env : Env) (calls : list Call) (s : State) :
  started (this (after (lifecycle env calls) s))
  = (started (this s)
     || (negb (isBrowser env) && enabled (this s) && existsb is_afterStart calls))%bool
  /\ isStarted (after (lifecycle env calls) s)
     = (Return (started (this (after (lifecycle env calls) s))),
        after (lifecycle env calls) s).
Proof.
  split; [|reflexivity].
  revert s. induction calls as [|c calls IH]; intros s.
  - cbn. now rewrite andb_false_r, orb_false_r.
  - unfold lifecycle, after. rewrite for_of_cons.
    pose proof (perform_returns env c s) as Hr.
    destruct (perform_started env c s) as [He Hs].
    unfold outcome, after in Hr, He, Hs.
    destruct (perform env c s) as [[[]|e] s1]; cbn [fst snd] in *;
      [|discriminate].
    specialize (IH s1). unfold lifecycle, after in IH. rewrite IH, He, Hs.
    cbn [existsb].
    destruct (started (this s)), (isBrowser env), (enabled (this s)),
      (is_afterStart c), (existsb is_afterStart calls); reflexivity.
Qed.

(** ** Further properties on sample runs *)

Lemma highPort_reaches_4001 :
  exists r, Number.is_number r /\ r < Number.of_Z 1 /\ highPort_default r = 4001.
Proof. apply highPort_reaches_every_port. lia. Defined.

Lemma highPort_grows_witness :
  highPort 0 (Number.of_Z 1024) (Number.of_Z 65535)
  <= highPort (2 ^ 1073) (Number.of_Z 1024) (Number.of_Z 65535)
  /\ (Number.is_number (Number.of_Z 1024) ->
      highPort 0 (Number.of_Z 1024) (Number.of_Z 65535)
      = Number.floor (Number.of_Z 1024)).
Proof.
  apply highPort_grows_with_random.
  - split; [vm_compute; discriminate | vm_compute; discriminate].
  - split; [vm_compute; discriminate | vm_compute; discriminate].
Defined.

Lemma client_configuration_witness :
  Forall (fun o =>
            o = options_from sample_gateway sample_components
                  (sample_init true None None)
            /\ 7200 <= UpnpOptions.ttl o)
    (upnpNat_calls (appended (lifecycle sample_gateway [CallAfterStart; CallStop])
                      sample_state)).
Proof.
  exact (client_is_made_with_the_configuration sample_gateway sample_components
           (sample_init true None None) (sample_manager true None) []
           [CallAfterStart; CallStop] eq_refl).
Defined.

(** The sample run makes its client with the default description, ttl and
    keepAlive. *)
Example client_configuration_sample :
  upnpNat_calls (appended (lifecycle sample_gateway [CallAfterStart; CallStop])
                   sample_state)
  = [{| UpnpOptions.description := "libp2p@0.42.2 QmPeer";
        UpnpOptions.ttl := 7200;
        UpnpOptions.keepAlive := true;
        UpnpOptions.gateway := None |}].
Proof. vm_compute. reflexivity. Qed.

Lemma local_address_witness :
  Forall (fun r => MapRequest.localAddress r = None)
    (requests (appended (lifecycle sample_gateway [CallAfterStart; CallStop])
                 sample_state)).
Proof.
  exact (requests_carry_the_local_address sample_gateway sample_components
           (sample_init true None None) (sample_manager true None) []
           [CallAfterStart; CallStop] eq_refl).
Defined.

Lemma registered_after_granted_witness :
  exists t c r d,
    trace (after (lifecycle sample_gateway [CallAfterStart]) sample_state)
    = t ++ Map c r
           :: AddObservedAddr
                (fromNodeAddress
                   {| NodeAddress.family := 4;
                      NodeAddress.address := "203.0.113.7";
                      NodeAddress.port := 33280 |} "tcp") :: d
    /\ client_map sample_gateway c r t = None
    /\ MapRequest.publicPort r
       = NodeAddress.port
           (nodeAddress
              (fromNodeAddress
                 {| NodeAddress.family := 4;
                    NodeAddress.address := "203.0.113.7";
                    NodeAddress.port := 33280 |} "tcp")).
Proof.
  apply registered_only_after_granted_mapping.
  vm_compute. do 6 right. left. reflexivity.
Defined.

Lemma normal_run_witness :
  map MapRequest.localPort (requests (appended (_start sample_gateway) sample_state))
  = map (fun a => MultiaddrObject.port (toOptions a))
      (filter eligible (getAddrs sample_gateway (trace sample_state)))
  /\ List.length (observed (appended (_start sample_gateway) sample_state))
     = List.length (filter eligible (getAddrs sample_gateway (trace sample_state)))
  /\ (externalAddress (this sample_state) = None ->
      List.length (filter is_ExternalIp (appended (_start sample_gateway) sample_state))
      = List.length (filter eligible (getAddrs sample_gateway (trace sample_state)))).
Proof.
  apply normal_run_maps_every_eligible_address. vm_compute. reflexivity.
Defined.

(** The sample run requests the ports 4001 and 4002. *)
Example normal_run_sample :
  map MapRequest.localPort (requests (appended (_start sample_gateway) sample_state))
  = [4001; 4002].
Proof. vm_compute. reflexivity. Qed.

Lemma error_ends_run_witness :
  _start double_nat_env
    {| this := set_started true (this sample_state); trace := trace sample_state |}
  = (Throw (JsError (is_private_message "10.0.0.5")),
     after (_start_body double_nat_env addr_lan2) double_nat_started)
  /\ afterStart double_nat_env sample_state
     = (Return tt,
        {| this := this (after (_start_body double_nat_env addr_lan2)
                           double_nat_started);
           trace := trace (after (_start_body double_nat_env addr_lan2)
                             double_nat_started)
                    ++ [LogError (JsError (is_private_message "10.0.0.5"))] |}).
Proof.
  apply (error_ends_run_and_is_logged double_nat_env sample_state
           [addr_loopback; addr_lan] addr_lan2 [addr_udp] double_nat_started).
  - reflexivity.
  - reflexivity.
  - reflexivity.
  - reflexivity.
  - vm_compute. reflexivity.
  - vm_compute. reflexivity.
Defined.

Lemma started_never_maps_again_witness :
  started (this (after (lifecycle sample_gateway [CallStop; CallAfterStart; CallStop])
                   started_state)) = true
  /\ Forall (fun e => is_release e = true)
       (appended (lifecycle sample_gateway [CallStop; CallAfterStart; CallStop])
          started_state)
  /\ created (appended (lifecycle sample_gateway [CallStop; CallAfterStart; CallStop])
                started_state) = 0%nat
  /\ requests (appended (lifecycle sample_gateway [CallStop; CallAfterStart; CallStop])
                 started_state) = []
  /\ observed (appended (lifecycle sample_gateway [CallStop; CallAfterStart; CallStop])
                 started_state) = [].
Proof.
  apply started_instance_never_maps_again. vm_compute. reflexivity.
Defined.



Lemma disabled_instance_witness :
  lifecycle sample_gateway [CallStart; CallAfterStart; CallStop]
    (fresh (sample_manager false None) [])
  = (Return tt, fresh (sample_manager false None) []).
Proof.
  apply (disabled_instance_is_inert sample_gateway sample_components
           (sample_init false None None)).
  - reflexivity.
  - left. reflexivity.
Defined.

(** The two addresses that the sample run registers are public. *)
Example registered_addresses_sample :
  List.length (observed (appended (lifecycle sample_gateway [CallAfterStart])
                           sample_state)) = 2%nat.
Proof. vm_compute. reflexivity. Qed.

(** [stop] alone does not start the sample instance, [afterStart] does, and
    not in a browser. *)
Example started_tells_afterStart_sample :
  started (this (after (lifecycle sample_gateway [CallStart; CallStop]) sample_state))
  = false
  /\ started (this (after (lifecycle sample_gateway [CallAfterStart; CallStop])
                      sample_state)) = true
  /\ started (this (after (lifecycle browser_env [CallAfterStart; CallStop])
                      sample_state)) = false.
Proof. repeat split; vm_compute; reflexivity. Qed.
